(** * Caffeine half-life widget: the intake store, the validator and the
      decay engine of [CaffeineHalfLifeApp] (src/App.jsx), embedded in Rocq.

    JavaScript numbers are modelled over the real numbers, extended with
    the not-a-number value that [Number] yields for text that does not
    parse.  Every arithmetic operation and comparison below follows the
    ECMAScript rule for NaN; rounding error of binary64 is not modelled,
    so the results proved here are the exact-arithmetic ones. *)

From Stdlib Require Import Reals Lra Lia ZArith String Ascii DecimalString.
From stdpp Require Import base list sorting.

(** ** JavaScript numbers *)

Module Js.

Local Open Scope R_scope.

Inductive number : Type :=
  | NaN
  | Num (r : R).

(** Exceptions that the modelled code can raise. *)
Inductive exn : Type :=
  | TypeError.

(** Result of running a piece of code that may throw. *)
Inductive outcome (A : Type) : Type :=
  | Return (a : A)
  | Throw (e : exn).
Arguments Return {A} a.
Arguments Throw {A} e.

Definition lift2 (f : R -> R -> R) (x y : number) : number :=
  match x, y with
  | Num a, Num b => Num (f a b)
  | _, _ => NaN
  end.

Definition add : number -> number -> number := lift2 Rplus.
Definition sub : number -> number -> number := lift2 Rminus.
Definition mul : number -> number -> number := lift2 Rmult.

(** [x / y].  The code divides by the literals 60 and 5 only; a zero
    divisor (an infinity or NaN in JavaScript) is mapped to NaN here. *)
Definition div (x y : number) : number :=
  match x, y with
  | Num a, Num b => if Req_dec_T b 0 then NaN else Num (a / b)
  | _, _ => NaN
  end.

(** Integer part towards zero. *)
Definition trunc (r : R) : Z :=
  if Rle_dec 0 r then Int_part r else (- Int_part (- r))%Z.

(** [x % y]: the remainder has the sign of the dividend, with the
    quotient truncated towards zero; NaN for a zero divisor. *)
Definition rem (x y : number) : number :=
  match x, y with
  | Num a, Num b =>
      if Req_dec_T b 0 then NaN else Num (a - b * IZR (trunc (a / b)))
  | _, _ => NaN
  end.

(** Comparisons: false as soon as one side is NaN. *)
Definition cmp (P : R -> R -> Prop) (dec : forall a b, {P a b} + {~ P a b})
    (x y : number) : bool :=
  match x, y with
  | Num a, Num b => if dec a b then true else false
  | _, _ => false
  end.

Definition lt : number -> number -> bool := cmp Rlt Rlt_dec.
Definition le : number -> number -> bool := cmp Rle Rle_dec.
Definition gt : number -> number -> bool := cmp Rgt Rgt_dec.
Definition ge : number -> number -> bool := cmp Rge Rge_dec.

(** [Math.round]: nearest integer, halves going up. *)
Definition Math_round (x : number) : number :=
  match x with
  | Num a => Num (IZR (Int_part (a + / 2)))
  | NaN => NaN
  end.

(** [Math.pow] for a positive base, the only way the code calls it (the
    base is the literal 0.5).  Other bases are mapped to NaN. *)
Definition Math_pow (b e : number) : number :=
  match b, e with
  | Num x, Num y => if Rlt_dec 0 x then Num (Rpower x y) else NaN
  | _, _ => NaN
  end.

(** A loop counter or array index as a number. *)
Definition of_nat (n : nat) : number := Num (INR n).

End Js.

Import Js.
Coercion Num : R >-> number.

Declare Scope js_scope.
Delimit Scope js_scope with js.
Bind Scope js_scope with number.
Infix "+" := add : js_scope.
Infix "-" := sub : js_scope.
Infix "*" := mul : js_scope.
Infix "/" := div : js_scope.
Infix "%%" := rem (at level 40, left associativity) : js_scope.
Infix "<?" := lt : js_scope.
Infix "<=?" := le : js_scope.
Infix ">?" := gt : js_scope.
Infix ">=?" := ge : js_scope.

Local Open Scope R_scope.

(** ** Data model *)

(** An intake event: [{ time, amount }]. *)
Record Intake : Type := mkIntake { time : number; amount : number }.

(** A point of the chart: [{ time, caffeine }].  Its [time] field is
    named [ptime] here, [time] being taken by [Intake]. *)
Record Point : Type := mkPoint { ptime : number; caffeine : number }.

Definition CAFFEINE_HALF_LIFE : nat := 5.
Definition TOTAL_DURATION : nat := 24.

(** The two messages that [validateIntakes] hands to [setError], under
    the names the specification gives them. *)
Inductive ValidationError : Type :=
  | OutOfRangeTime
  | OutOfRangeAmount.

Definition message (e : ValidationError) : string :=
  match e with
  | OutOfRangeTime => "Time must be between 0 and 23.99 hours"%string
  | OutOfRangeAmount => "Caffeine amount must be between 1 and 1000 mg"%string
  end.

(** ** Intake store operations

    Each handler is modelled by the value it passes to [setIntakes]. *)

(** [addIntake].  On an empty store [lastIntake] is [undefined] and
    reading its [time] throws. *)
Definition addIntake (intakes : list Intake) : outcome (list Intake) :=
  match last intakes with
  | None => Throw TypeError
  | Some lastIntake =>
      let newTime := ((time lastIntake + 2) %% 24)%js in
      let newTime :=
        if (newTime <=? time lastIntake)%js
        then ((time lastIntake + 2) %% 24)%js
        else newTime in
      Return (intakes ++ [ {| time := newTime; amount := Num 100 |} ])
  end.

(** [filter((_, i) => pred(i))] with the running index starting at [i]. *)
Fixpoint filter_index {A : Type} (pred : nat -> bool) (i : nat) (l : list A)
    : list A :=
  match l with
  | [] => []
  | x :: rest =>
      if pred i then x :: filter_index pred (S i) rest
      else filter_index pred (S i) rest
  end.

(** [removeIntake]: keeps the elements whose position differs from
    [index]. *)
Definition removeIntake (index : Z) (intakes : list Intake) : list Intake :=
  filter_index (fun i => negb (Z.of_nat i =? index)%Z) 0 intakes.

Inductive Field : Type := FTime | FAmount.

Definition set_field (field : Field) (v : number) (e : Intake) : Intake :=
  match field with
  | FTime => {| time := v; amount := amount e |}
  | FAmount => {| time := time e; amount := v |}
  end.

(** [updateIntake], with [value] standing for [Number(value)]: NaN when
    the raw value does not parse.  Writing a field of a missing element
    throws.  The array is copied but the event object written to is the
    one of the previous store; the model gives the contents of the new
    store. *)
Definition updateIntake (index : nat) (field : Field) (value : number)
    (intakes : list Intake) : outcome (list Intake) :=
  match intakes !! index with
  | None => Throw TypeError
  | Some _ => Return (alter (set_field field value) index intakes)
  end.

(** ** Validator *)

(** [validateIntakes]: the message given to [setError] and the returned
    flag. *)
Fixpoint validateIntakes (intakes : list Intake) : string * bool :=
  match intakes with
  | [] => (EmptyString, true)
  | intake :: rest =>
      if ((time intake <? 0) || (time intake >=? 24))%js
      then (message OutOfRangeTime, false)
      else if ((amount intake <=? 0) || (amount intake >? 1000))%js
      then (message OutOfRangeAmount, false)
      else validateIntakes rest
  end.

(** ** Decay engine *)

(** The comparator [(a, b) => a.time - b.time]. *)
Definition by_time (a b : Intake) : number := (time a - time b)%js.

(** [Array.prototype.sort] is a stable sort: an element moves behind
    exactly those it compares greater than.  A NaN comparator result
    counts as zero; the order that an engine gives a store with such
    results is its own choice, and nothing below states the order of a
    store of several events one of which has a NaN time. *)
Fixpoint sort_insert {A : Type} (compare : A -> A -> number) (x : A)
    (l : list A) : list A :=
  match l with
  | [] => [x]
  | y :: rest =>
      if (compare x y >? 0)%js then y :: sort_insert compare x rest
      else x :: y :: rest
  end.

Fixpoint sort {A : Type} (compare : A -> A -> number) (l : list A) : list A :=
  match l with
  | [] => []
  | x :: rest => sort_insert compare x (sort compare rest)
  end.

(** Position of an intake in the window, in minutes after [startTime]. *)
Definition intakeMinute (startTime : number) (intake : Intake) : number :=
  Math_round ((time intake - startTime + 24) %% 24 * 60)%js.

(** Hours elapsed at [minute] since the intake, wrapped around the
    window. *)
Definition timeSinceIntake (intakeMinute : number) (minute : nat) : number :=
  ((of_nat minute - intakeMinute + of_nat TOTAL_DURATION * 60)
     %% (of_nat TOTAL_DURATION * 60) / 60)%js.

(** What one intake adds to the point at [minute]. *)
Definition contribution (intake : Intake) (timeSinceIntake : number)
    : number :=
  (amount intake
   * Math_pow (Num 0.5) (timeSinceIntake / of_nat CAFFEINE_HALF_LIFE))%js.

Definition add_caffeine (v : number) (p : Point) : Point :=
  {| ptime := ptime p; caffeine := (caffeine p + v)%js |}.

(** Body of the inner loop: [data[minute].caffeine += ...] under the
    guard.  [minute] always is a position of [data]: the array length
    and the loop bound are the same [TOTAL_DURATION * 60]. *)
Definition inner_step (intake : Intake) (intakeMinute : number)
    (data : list Point) (minute : nat) : list Point :=
  let timeSinceIntake := timeSinceIntake intakeMinute minute in
  if (timeSinceIntake >=? 0)%js
  then alter (add_caffeine (contribution intake timeSinceIntake)) minute data
  else data.

(** Effect of one pass of the inner loop on the point at [minute]. *)
Definition point_step (intake : Intake) (intakeMinute : number)
    (minute : nat) (p : Point) : Point :=
  let timeSinceIntake := timeSinceIntake intakeMinute minute in
  if (timeSinceIntake >=? 0)%js
  then add_caffeine (contribution intake timeSinceIntake) p
  else p.

(** Body of [sortedIntakes.forEach]. *)
Definition forEach_step (startTime : number) (data : list Point)
    (intake : Intake) : list Point :=
  let intakeMinute := intakeMinute startTime intake in
  foldl (inner_step intake intakeMinute) data
        (seq 0 (TOTAL_DURATION * 60)).

(** [chartData]: the empty array when validation fails; reading
    [sortedIntakes[0].time] throws on an empty store. *)
Definition chartData (intakes : list Intake) : outcome (list Point) :=
  if negb (validateIntakes intakes).2 then Return []
  else
    let sortedIntakes := sort by_time intakes in
    match sortedIntakes !! 0%nat with
    | None => Throw TypeError
    | Some first =>
        let startTime := time first in
        let data :=
          (fun minute : nat =>
             {| ptime := ((startTime + of_nat minute / 60) %% 24)%js;
                caffeine := Num 0 |})
            <$> seq 0 (TOTAL_DURATION * 60) in
        Return (foldl (forEach_step startTime) data sortedIntakes)
    end.

(** The point of a computed series at step [k], if there is one. *)
Definition point_at (series : outcome (list Point)) (k : nat)
    : option Point :=
  match series with
  | Return data => data !! k
  | Throw _ => None
  end.

Definition level_at (series : outcome (list Point)) (k : nat)
    : option number :=
  caffeine <$> point_at series k.

(** ** Vocabulary of the specification *)

(** Rule 1: a time is a real number of hours in [[0, 24)]. *)
Definition in_time_range (x : number) : Prop :=
  exists t : R, x = Num t /\ 0 <= t < 24.

(** Rule 2: an amount is a real number of mg in [(0, 1000]]. *)
Definition in_amount_range (x : number) : Prop :=
  exists a : R, x = Num a /\ 0 < a <= 1000.

(** The invariant of the data model. *)
Definition valid_event (e : Intake) : Prop :=
  in_time_range (time e) /\ in_amount_range (amount e).

(** [validate] succeeds: no message, flag set. *)
Definition accepts (intakes : list Intake) : Prop :=
  validateIntakes intakes = (EmptyString, true).

(** [validate] fails with the given error. *)
Definition rejects (intakes : list Intake) (e : ValidationError) : Prop :=
  validateIntakes intakes = (message e, false).

(** The first violation that a scan of one event finds, time first. *)
Definition first_violation (t a : R) : option ValidationError :=
  if Rlt_dec t 0 then Some OutOfRangeTime
  else if Rge_dec t 24 then Some OutOfRangeTime
  else if Rle_dec a 0 then Some OutOfRangeAmount
  else if Rgt_dec a 1000 then Some OutOfRangeAmount
  else None.

(** Two events with numeric times, the first not later than the second. *)
Definition time_le (e1 e2 : Intake) : Prop :=
  exists t1 t2 : R, time e1 = Num t1 /\ time e2 = Num t2 /\ t1 <= t2.

(** [first] is an event of the list with the smallest time. *)
Definition earliest (first : Intake) (intakes : list Intake) : Prop :=
  first ∈ intakes /\ forall e, e ∈ intakes -> time_le first e.

(** Sum of what the intakes add at [minute], in the order of the loop. *)
Definition level_sum (startTime : number) (sortedIntakes : list Intake)
    (minute : nat) : number :=
  foldl (fun acc intake =>
           (acc + contribution intake
                    (timeSinceIntake (intakeMinute startTime intake) minute))%js)
        (Num 0) sortedIntakes.


(** Superposition read index by index: the joint level at every step is
    the sum of the two single-intake levels at that same step. *)
Definition superposition_same_index (e1 e2 : Intake) : Prop :=
  forall k : nat, (k < TOTAL_DURATION * 60)%nat ->
    exists v v1 v2 : number,
      level_at (chartData [e1; e2]) k = Some v
      /\ level_at (chartData [e1]) k = Some v1
      /\ level_at (chartData [e2]) k = Some v2
      /\ v = (v1 + v2)%js.

(** An integer-valued number as an array index. *)
Definition to_index (x : number) : nat :=
  match x with
  | Num r => Z.to_nat (Int_part r)
  | NaN => 0%nat
  end.

(** Step of the single-intake series of [late] that shows the same
    instant as step [k] of a window starting at [early]'s time. *)
Definition aligned_step (early late : Intake) (k : nat) : nat :=
  ((k + TOTAL_DURATION * 60 - to_index (intakeMinute (time early) late))
     mod (TOTAL_DURATION * 60))%nat.

(** Removal of the element at position [i]. *)
Definition without {A : Type} (i : nat) (l : list A) : list A :=
  take i l ++ drop (S i) l.

(** ** The rest of the component: axis, time field, first-row guard *)

(** The [startTime] memo: the time of the earliest intake; reading it on
    an empty store throws. *)
Definition startTime (intakes : list Intake) : outcome number :=
  let sortedIntakes := sort by_time intakes in
  match sortedIntakes !! 0%nat with
  | None => Throw TypeError
  | Some first => Return (time first)
  end.

(** The [ticks] given to the X axis. *)
Definition ticks (startTime : number) : list number :=
  [ startTime;
    ((startTime + 4) %% 24)%js;
    ((startTime + 8) %% 24)%js;
    ((startTime + 12) %% 24)%js;
    ((startTime + 16) %% 24)%js;
    ((startTime + 20) %% 24)%js ].

(** [Math.floor]. *)
Definition Math_floor (x : number) : number :=
  match x with
  | Num a => Num (IZR (Int_part a))
  | NaN => NaN
  end.

(** Decimal digits of an integer, with a minus sign when negative. *)
Definition string_of_Z (z : Z) : string :=
  NilZero.string_of_int (Z.to_int z).

(** [toString] of a number that is NaN or a whole number, as
    [Math.floor] returns them: the decimal digits (magnitudes from 1e21
    on, which JavaScript prints with an exponent, do not occur for hours
    of the day). *)
Definition toString (x : number) : string :=
  match x with
  | NaN => "NaN"%string
  | Num r => string_of_Z (Int_part r)
  end.

(** [s.padStart(targetLength, fill)]: [s] itself when it is long enough
    or [fill] is empty, otherwise [fill] repeated and cut to the missing
    length, then [s]. *)
Definition padStart (targetLength : nat) (fill : string) (s : string)
    : string :=
  let missing := (targetLength - String.length s)%nat in
  if (targetLength <=? String.length s)%nat then s
  else if String.eqb fill EmptyString then s
  else (substring 0 missing (String.concat EmptyString (repeat fill missing))
        ++ s)%string.

(** [formatXAxis]: the whole hour on two digits, minutes always [00]. *)
Definition formatXAxis (time : number) : string :=
  let hours := Math_floor time in
  (padStart 2 "0" (toString hours) ++ ":00")%string.

(** [s.split(sep)] for a separator of one character. *)
Fixpoint split (sep : ascii) (s : string) : list string :=
  match s with
  | EmptyString => [EmptyString]
  | String c rest =>
      if Ascii.eqb c sep then EmptyString :: split sep rest
      else match split sep rest with
           | [] => [String c EmptyString]
           | part :: parts => String c part :: parts
           end
  end.

(** [Number(v)] for a destructured array element: [undefined] gives NaN,
    a string goes through [Number], which is a parameter of the model. *)
Definition Number_of (Number : string -> number) (v : option string)
    : number :=
  match v with
  | None => NaN
  | Some s => Number s
  end.

(** The [onChange] handler of the time field. *)
Definition onTimeChange (Number : string -> number) (index : nat)
    (value : string) (intakes : list Intake) : outcome (list Intake) :=
  let parts := split ":" value in
  let hours := parts !! 0%nat in
  let minutes := parts !! 1%nat in
  let time := (Number_of Number hours + Number_of Number minutes / 60)%js in
  updateIntake index FTime time intakes.

(** Value of a string of decimal digits, most significant first. *)
Definition digit_of (c : ascii) : option N :=
  let n := N_of_ascii c in
  if (48 <=? n)%N && (n <=? 57)%N then Some (n - 48)%N else None.

Fixpoint digits_from (acc : N) (s : string) : option N :=
  match s with
  | EmptyString => Some acc
  | String c rest =>
      match digit_of c with
      | Some d => digits_from (10 * acc + d)%N rest
      | None => None
      end
  end.

Definition digits_value (s : string) : option N :=
  match s with
  | EmptyString => None
  | _ => digits_from 0%N s
  end.

(** What the model relies on about the built-in [Number] on strings: a
    string of decimal digits is read in base ten, leading zeros allowed,
    and the empty string is zero. *)
Definition reads_digits (Number : string -> number) : Prop :=
  Number EmptyString = Num 0
  /\ forall (s : string) (n : N),
       digits_value s = Some n -> Number s = Num (IZR (Z.of_N n)).

(** A [Number] that is right on digit strings and on the empty string,
    to instantiate the parameter with. *)
Definition Number_digits (s : string) : number :=
  match s with
  | EmptyString => Num 0
  | _ => match digits_value s with
         | Some n => Num (IZR (Z.of_N n))
         | None => NaN
         end
  end.

(** The value of a time field set to [h] hours [m] minutes: [HH:MM]. *)
Definition time_value (h m : nat) : string :=
  (padStart 2 "0" (string_of_Z (Z.of_nat h)) ++ ":"
   ++ padStart 2 "0" (string_of_Z (Z.of_nat m)))%string.

(** The real number under a number, zero for NaN. *)
Definition num_value (x : number) : R :=
  match x with
  | Num r => r
  | NaN => 0
  end.

(** Sum of a list of reals. *)
Definition Rsum (l : list R) : R := foldr Rplus 0 l.

(** The term of [intake] at [minute] in a window starting at [start]. *)
Definition term (start : number) (minute : nat) (intake : Intake) : R :=
  num_value
    (contribution intake
       (timeSinceIntake (intakeMinute start intake) minute)).

(** The step of the window at which [intake] itself sits. *)
Definition own_step (start : number) (intake : Intake) : nat :=
  (to_index (intakeMinute start intake) mod (TOTAL_DURATION * 60))%nat.

(** Decides the comparisons of a goal on numeric literals. *)
Ltac js_compare :=
  unfold lt, le, gt, ge, cmp;
  repeat match goal with
    | |- context [Rlt_dec ?a ?b] => destruct (Rlt_dec a b); try lra
    | |- context [Rle_dec ?a ?b] => destruct (Rle_dec a b); try lra
    | |- context [Rgt_dec ?a ?b] => destruct (Rgt_dec a b); try lra
    | |- context [Rge_dec ?a ?b] => destruct (Rge_dec a b); try lra
    end;
  try reflexivity.

(** ** Arithmetic of the number model *)

Section Numbers.

Lemma Int_part_unit (r : R) : 0 <= r < 1 -> Int_part r = 0%Z.
Proof.
  intros Hr. symmetry. apply Int_part_spec. simpl. lra.
Qed.

Lemma Int_part_IZR_shift (z : Z) (r : R) :
  0 <= r < 1 -> Int_part (IZR z + r) = z.
Proof.
  intros Hr. symmetry. apply Int_part_spec. lra.
Qed.

Lemma Int_part_bounds (r : R) (lo hi : Z) :
  IZR lo <= r < IZR hi -> (lo <= Int_part r < hi)%Z.
Proof.
  intros [Hlo Hhi].
  destruct (base_Int_part r) as [H1 H2].
  split.
  - apply Z.lt_succ_r. apply lt_IZR. rewrite succ_IZR. lra.
  - apply lt_IZR. lra.
Qed.

Lemma trunc_nonneg (r : R) : 0 <= r -> trunc r = Int_part r.
Proof.
  intros Hr. unfold trunc. destruct (Rle_dec 0 r); [reflexivity | contradiction].
Qed.

Lemma Rdiv_unit (a b : R) : 0 <= a < b -> 0 <= a / b < 1.
Proof.
  intros [Ha Hb].
  assert (Hi : 0 < / b) by (apply Rinv_0_lt_compat; lra).
  assert (Hone : b * / b = 1) by (apply Rinv_r; lra).
  unfold Rdiv. split; nra.
Qed.

(** A dividend already inside [[0, b)] is its own remainder. *)
Lemma rem_small (a b : R) : 0 <= a < b -> (Num a %% Num b)%js = Num a.
Proof.
  intros [Ha Hb]. unfold rem.
  destruct (Req_dec_T b 0) as [E | _]; [lra |].
  assert (Hq : 0 <= a / b < 1) by (apply Rdiv_unit; lra).
  rewrite trunc_nonneg by lra.
  rewrite Int_part_unit by exact Hq.
  f_equal. simpl. lra.
Qed.

(** One wrap: a dividend inside [[b, 2b)] loses [b]. *)
Lemma rem_wrap (a b : R) : b <= a < 2 * b -> 0 < b ->
  (Num a %% Num b)%js = Num (a - b).
Proof.
  intros [Ha Hb] Hpos. unfold rem.
  destruct (Req_dec_T b 0) as [E | _]; [lra |].
  assert (Hq : a / b = IZR 1 + (a - b) / b) by (field; lra).
  assert (Hf : 0 <= (a - b) / b < 1) by (apply Rdiv_unit; lra).
  rewrite trunc_nonneg by (rewrite Hq; lra).
  rewrite Hq, Int_part_IZR_shift by exact Hf.
  f_equal. lra.
Qed.

Lemma of_nat_TOTAL_DURATION : of_nat TOTAL_DURATION = Num 24.
Proof.
  unfold of_nat, TOTAL_DURATION. rewrite INR_IZR_INZ. reflexivity.
Qed.

Lemma of_nat_CAFFEINE_HALF_LIFE : of_nat CAFFEINE_HALF_LIFE = Num 5.
Proof.
  unfold of_nat, CAFFEINE_HALF_LIFE. rewrite INR_IZR_INZ. reflexivity.
Qed.

Lemma div_num (a b : R) : b <> 0 -> (Num a / Num b)%js = Num (a / b).
Proof.
  intros Hb. unfold div. destruct (Req_dec_T b 0); [contradiction | reflexivity].
Qed.

Lemma ge_num (a b : R) : a >= b -> (Num a >=? Num b)%js = true.
Proof.
  intros H. unfold ge, cmp. destruct (Rge_dec a b); [reflexivity | contradiction].
Qed.

Lemma gt_num (a b : R) : a > b -> (Num a >? Num b)%js = true.
Proof.
  intros H. unfold gt, cmp. destruct (Rgt_dec a b); [reflexivity | contradiction].
Qed.

Lemma gt_num_false (a b : R) : a <= b -> (Num a >? Num b)%js = false.
Proof.
  intros H. unfold gt, cmp. destruct (Rgt_dec a b); [lra | reflexivity].
Qed.

Lemma pow_half (y : R) : Math_pow (Num 0.5) (Num y) = Num (Rpower 0.5 y).
Proof.
  unfold Math_pow. destruct (Rlt_dec 0 0.5); [reflexivity | lra].
Qed.

Lemma Rpower_half_pos (y : R) : 0 < Rpower 0.5 y.
Proof. unfold Rpower. apply exp_pos. Qed.

Lemma Rpower_half_0 : Rpower 0.5 0 = 1.
Proof. apply Rpower_O. lra. Qed.

Lemma Rpower_half_1 : Rpower 0.5 1 = / 2.
Proof. rewrite Rpower_1 by lra. lra. Qed.

Lemma Rpower_half_2 : Rpower 0.5 2 = / 4.
Proof.
  replace 2 with (1 + 1) by lra.
  rewrite Rpower_plus, Rpower_half_1. lra.
Qed.

(** Decay is strict: after a positive delay less than all remains. *)
Lemma Rpower_half_lt_1 (y : R) : 0 < y -> Rpower 0.5 y < 1.
Proof.
  intros Hy. unfold Rpower.
  rewrite <- exp_0. apply exp_increasing.
  assert (Hln : ln 0.5 < 0).
  { rewrite <- ln_1. apply ln_increasing; lra. }
  nra.
Qed.

End Numbers.

(** ** The validator *)

Section Validator.

Lemma time_check_passes (t : R) :
  0 <= t < 24 -> ((Num t <? 0) || (Num t >=? 24))%js = false.
Proof. intros Ht. js_compare. Qed.

Lemma amount_check_passes (a : R) :
  0 < a <= 1000 -> ((Num a <=? 0) || (Num a >? 1000))%js = false.
Proof. intros Ha. js_compare. Qed.

Lemma time_check_fails (t : R) :
  ~ 0 <= t < 24 -> ((Num t <? 0) || (Num t >=? 24))%js = true.
Proof. intros Ht. js_compare. Qed.

Lemma amount_check_fails (a : R) :
  ~ 0 < a <= 1000 -> ((Num a <=? 0) || (Num a >? 1000))%js = true.
Proof. intros Ha. js_compare. Qed.

Lemma valid_event_intro (t a : R) :
  0 <= t < 24 -> 0 < a <= 1000 ->
  valid_event {| time := Num t; amount := Num a |}.
Proof.
  intros Ht Ha. split; [exists t | exists a]; split; (reflexivity || assumption).
Qed.

(** A valid event is skipped by the scan. *)
Lemma validate_skip (e : Intake) (rest : list Intake) :
  valid_event e -> validateIntakes (e :: rest) = validateIntakes rest.
Proof.
  intros [(t & Et & Ht) (a & Ea & Ha)].
  cbn [validateIntakes].
  rewrite Et, Ea, time_check_passes, amount_check_passes by assumption.
  reflexivity.
Qed.

Lemma validate_skip_prefix (pre rest : list Intake) :
  Forall valid_event pre ->
  validateIntakes (pre ++ rest) = validateIntakes rest.
Proof.
  induction 1 as [| e pre He _ IH]; [reflexivity |].
  rewrite <- app_comm_cons, validate_skip by exact He. exact IH.
Qed.

Lemma validate_valid (intakes : list Intake) :
  Forall valid_event intakes -> accepts intakes.
Proof.
  intros H. unfold accepts.
  rewrite <- (app_nil_r intakes), validate_skip_prefix by exact H.
  reflexivity.
Qed.

Lemma first_violation_time (t a : R) :
  ~ 0 <= t < 24 -> first_violation t a = Some OutOfRangeTime.
Proof.
  intros Ht. unfold first_violation.
  destruct (Rlt_dec t 0); [reflexivity |].
  destruct (Rge_dec t 24); [reflexivity | lra].
Qed.

Lemma first_violation_amount (t a : R) :
  0 <= t < 24 -> ~ 0 < a <= 1000 ->
  first_violation t a = Some OutOfRangeAmount.
Proof.
  intros Ht Ha. unfold first_violation.
  destruct (Rlt_dec t 0); [lra |].
  destruct (Rge_dec t 24); [lra |].
  destruct (Rle_dec a 0); [reflexivity |].
  destruct (Rgt_dec a 1000); [reflexivity | lra].
Qed.

End Validator.

(** C1 (the code at the failing inputs).  An event whose time, or whose
    amount, is NaN passes both range checks: every comparison with NaN is
    false, so neither condition of the scan fires and [validateIntakes]
    reports success.  This holds also for the store that [updateIntake]
    produces from the seed event and a value that does not parse. *)
Theorem validate_accepts_NaN :
  accepts [ {| time := NaN; amount := Num 100 |} ]
  /\ accepts [ {| time := Num 6; amount := NaN |} ]
  /\ (exists store,
        updateIntake 0 FTime NaN [ {| time := Num 6; amount := Num 100 |} ]
          = Return store
        /\ accepts store)
  /\ (exists store,
        updateIntake 0 FAmount NaN [ {| time := Num 6; amount := Num 100 |} ]
          = Return store
        /\ accepts store).
Proof.
  assert (H1 : accepts [ {| time := NaN; amount := Num 100 |} ]).
  { unfold accepts. simpl. js_compare. }
  assert (H2 : accepts [ {| time := Num 6; amount := NaN |} ]).
  { unfold accepts. simpl. js_compare. }
  repeat split; try assumption.
  - exists [ {| time := NaN; amount := Num 100 |} ]. split; [reflexivity | exact H1].
  - exists [ {| time := Num 6; amount := NaN |} ]. split; [reflexivity | exact H2].
Qed.

(** C4.  Boundary semantics of the validator on a single event, the other
    field being in range: times 24 and -0.01 are rejected as
    [OutOfRangeTime], amounts 0 and 1000.01 as [OutOfRangeAmount]; times 0
    and 23.99 and amounts 1 and 1000 are accepted. *)
Theorem validate_boundaries (t a : R) :
  0 <= t < 24 -> 0 < a <= 1000 ->
  rejects [ {| time := Num 24; amount := Num a |} ] OutOfRangeTime
  /\ rejects [ {| time := Num (-0.01); amount := Num a |} ] OutOfRangeTime
  /\ rejects [ {| time := Num t; amount := Num 0 |} ] OutOfRangeAmount
  /\ rejects [ {| time := Num t; amount := Num 1000.01 |} ] OutOfRangeAmount
  /\ accepts [ {| time := Num 0; amount := Num a |} ]
  /\ accepts [ {| time := Num 23.99; amount := Num a |} ]
  /\ accepts [ {| time := Num t; amount := Num 1 |} ]
  /\ accepts [ {| time := Num t; amount := Num 1000 |} ].
Proof.
  intros Ht Ha. unfold rejects, accepts.
  cbn [validateIntakes time amount].
  repeat split.
  - rewrite time_check_fails by lra. reflexivity.
  - rewrite time_check_fails by lra. reflexivity.
  - rewrite time_check_passes, amount_check_fails by lra. reflexivity.
  - rewrite time_check_passes, amount_check_fails by lra. reflexivity.
  - rewrite time_check_passes, amount_check_passes by lra. reflexivity.
  - rewrite time_check_passes, amount_check_passes by lra. reflexivity.
  - rewrite time_check_passes, amount_check_passes by lra. reflexivity.
  - rewrite time_check_passes, amount_check_passes by lra. reflexivity.
Qed.

Lemma validate_boundaries_witness :
  rejects [ {| time := Num 24; amount := Num 100 |} ] OutOfRangeTime
  /\ rejects [ {| time := Num (-0.01); amount := Num 100 |} ] OutOfRangeTime
  /\ rejects [ {| time := Num 6; amount := Num 0 |} ] OutOfRangeAmount
  /\ rejects [ {| time := Num 6; amount := Num 1000.01 |} ] OutOfRangeAmount
  /\ accepts [ {| time := Num 0; amount := Num 100 |} ]
  /\ accepts [ {| time := Num 23.99; amount := Num 100 |} ]
  /\ accepts [ {| time := Num 6; amount := Num 1 |} ]
  /\ accepts [ {| time := Num 6; amount := Num 1000 |} ].
Proof. apply (validate_boundaries 6 100); lra. Defined.

(** Order of the scan on numeric fields.  When the events before an
    event with numeric fields are all valid and that event is not,
    [validateIntakes] reports the violation of that event, whatever
    follows it; the violation reported is the first one of the event,
    time before amount, so an event out of range in its time is reported
    as [OutOfRangeTime] even if its amount is out of range too. *)
Theorem validate_reports_first_violation
    (pre post : list Intake) (t a : R) :
  Forall valid_event pre ->
  ~ (0 <= t < 24 /\ 0 < a <= 1000) ->
  exists err : ValidationError,
    first_violation t a = Some err
    /\ rejects (pre ++ {| time := Num t; amount := Num a |} :: post) err
    /\ (~ 0 <= t < 24 -> err = OutOfRangeTime)
    /\ (0 <= t < 24 -> err = OutOfRangeAmount).
Proof.
  intros Hpre Hbad. unfold rejects.
  rewrite validate_skip_prefix by exact Hpre.
  cbn [validateIntakes time amount].
  destruct (Rlt_dec t 0) as [Hlo | Hlo];
    [| destruct (Rge_dec t 24) as [Hhi | Hhi] ].
  - exists OutOfRangeTime.
    rewrite first_violation_time, time_check_fails by lra.
    repeat split; intros; (reflexivity || lra).
  - exists OutOfRangeTime.
    rewrite first_violation_time, time_check_fails by lra.
    repeat split; intros; (reflexivity || lra).
  - exists OutOfRangeAmount.
    rewrite first_violation_amount, time_check_passes, amount_check_fails
      by lra.
    repeat split; intros; (reflexivity || lra).
Qed.

Lemma validate_reports_first_violation_witness :
  exists err : ValidationError,
    first_violation 25 0 = Some err
    /\ rejects ([ {| time := Num 6; amount := Num 100 |} ]
                  ++ {| time := Num 25; amount := Num 0 |}
                  :: [ {| time := Num 30; amount := Num 5 |} ]) err
    /\ (~ 0 <= 25 < 24 -> err = OutOfRangeTime)
    /\ (0 <= 25 < 24 -> err = OutOfRangeAmount).
Proof.
  apply (validate_reports_first_violation
           [ {| time := Num 6; amount := Num 100 |} ]
           [ {| time := Num 30; amount := Num 5 |} ] 25 0).
  - apply Forall_cons; split; [apply valid_event_intro; lra |].
    apply Forall_nil_2.
  - lra.
Defined.

(** C8 (the code at the failing inputs).  A NaN time is out of range,
    yet the time check lets it through, so the scan does not report the
    first violation in input order, nor the time violation before the
    amount one: an event with a NaN time and the amount 0 is reported as
    [OutOfRangeAmount], and a store whose first event has a NaN time is
    reported for the amount of its second event. *)
Theorem validate_misreports_NaN_time :
  ~ in_time_range NaN
  /\ ~ in_amount_range (Num 0)
  /\ rejects [ {| time := NaN; amount := Num 0 |} ] OutOfRangeAmount
  /\ ~ rejects [ {| time := NaN; amount := Num 0 |} ] OutOfRangeTime
  /\ ~ valid_event {| time := NaN; amount := Num 100 |}
  /\ rejects [ {| time := NaN; amount := Num 100 |};
               {| time := Num 8; amount := Num 0 |} ] OutOfRangeAmount.
Proof.
  assert (Hnan : ~ in_time_range NaN).
  { intros (t & Et & _). discriminate Et. }
  assert (H1 : rejects [ {| time := NaN; amount := Num 0 |} ] OutOfRangeAmount).
  { unfold rejects. cbn [validateIntakes time amount].
    rewrite amount_check_fails by lra. reflexivity. }
  split; [exact Hnan |].
  split; [intros (a & Ea & Ha); injection Ea as <-; lra |].
  split; [exact H1 |].
  split; [unfold rejects in *; rewrite H1; discriminate |].
  split; [intros [Ht _]; exact (Hnan Ht) |].
  unfold rejects. cbn [validateIntakes time amount].
  rewrite amount_check_passes by lra.
  rewrite time_check_passes by lra.
  rewrite amount_check_fails by lra. reflexivity.
Qed.

(** ** The intake store *)

Section Store.

Lemma last_nonempty {A : Type} (l : list A) :
  l <> [] -> exists x, last l = Some x.
Proof.
  intros Hl. destruct (last l) as [x |] eqn:E; [eauto |].
  apply last_None in E. contradiction.
Qed.

(** The two computations of [newTime] in [addIntake] are the same
    expression, so the test between them has no effect. *)
Lemma addIntake_last (intakes : list Intake) (lastIntake : Intake) :
  last intakes = Some lastIntake ->
  addIntake intakes
  = Return (intakes ++ [ {| time := ((time lastIntake + 2) %% 24)%js;
                            amount := Num 100 |} ]).
Proof.
  intros E. unfold addIntake. rewrite E.
  destruct ((time lastIntake + 2) %% 24 <=? time lastIntake)%js; reflexivity.
Qed.

(** [filter_index] on the test of [removeIntake], for any start of the
    running index: inside the range one element goes, outside none. *)
Lemma filter_index_remove (index : Z) (l : list Intake) (s : nat) :
  filter_index (fun i => negb (Z.of_nat i =? index)%Z) s l
  = if decide (Z.of_nat s <= index < Z.of_nat s + Z.of_nat (length l))%Z
    then without (Z.to_nat (index - Z.of_nat s)) l
    else l.
Proof.
  revert s. induction l as [| x l IH]; intros s.
  - cbn [filter_index length]. case_decide; [lia | reflexivity].
  - cbn [filter_index]. rewrite IH. cbn [length].
    destruct (Z.eqb_spec (Z.of_nat s) index) as [E | E]; cbn [negb].
    + subst index. rewrite Z.sub_diag.
      rewrite decide_False by lia. rewrite decide_True by lia.
      reflexivity.
    + destruct (decide (Z.of_nat (S s) <= index
                        < Z.of_nat (S s) + Z.of_nat (length l))%Z) as [H | H].
      * rewrite decide_True by lia.
        replace (Z.to_nat (index - Z.of_nat s))
          with (S (Z.to_nat (index - Z.of_nat (S s)))) by lia.
        reflexivity.
      * rewrite decide_False by lia. reflexivity.
Qed.

End Store.

(** C9.  On a non-empty store [addIntake] returns the input events,
    unchanged and in their order, followed by exactly one new event whose
    amount is 100 and whose time is [(lastIntake.time + 2) % 24]; for a
    last time in [[0, 24)] that is the time two hours later on the
    24-hour clock. *)
Theorem addIntake_appends (intakes : list Intake) :
  intakes <> [] ->
  exists lastIntake : Intake,
    last intakes = Some lastIntake
    /\ addIntake intakes
       = Return (intakes ++ [ {| time := ((time lastIntake + 2) %% 24)%js;
                                 amount := Num 100 |} ])
    /\ (forall t : R, time lastIntake = Num t -> 0 <= t < 24 ->
        ((time lastIntake + 2) %% 24)%js
        = Num (if Rlt_dec (t + 2) 24 then t + 2 else t + 2 - 24)).
Proof.
  intros Hne. destruct (last_nonempty intakes Hne) as [lastIntake E].
  exists lastIntake. split; [exact E |]. split; [exact (addIntake_last _ _ E) |].
  intros t Et Ht. rewrite Et. cbn [add lift2].
  destruct (Rlt_dec (t + 2) 24).
  - apply rem_small. lra.
  - apply rem_wrap; lra.
Qed.

Lemma addIntake_appends_witness :
  exists lastIntake : Intake,
    last [ {| time := Num 6; amount := Num 100 |};
           {| time := Num 23; amount := Num 75 |} ] = Some lastIntake
    /\ addIntake [ {| time := Num 6; amount := Num 100 |};
                   {| time := Num 23; amount := Num 75 |} ]
       = Return ([ {| time := Num 6; amount := Num 100 |};
                   {| time := Num 23; amount := Num 75 |} ]
                 ++ [ {| time := ((time lastIntake + 2) %% 24)%js;
                         amount := Num 100 |} ])
    /\ (forall t : R, time lastIntake = Num t -> 0 <= t < 24 ->
        ((time lastIntake + 2) %% 24)%js
        = Num (if Rlt_dec (t + 2) 24 then t + 2 else t + 2 - 24)).
Proof.
  apply (addIntake_appends [ {| time := Num 6; amount := Num 100 |};
                             {| time := Num 23; amount := Num 75 |} ]).
  discriminate.
Defined.

(** C10.  [removeIntake] leaves the store unchanged when [index] is not a
    position of it (negative, or at least the length), and otherwise
    returns the store without the element at [index], the others keeping
    their order. *)
Theorem removeIntake_spec (index : Z) (intakes : list Intake) :
  ((index < 0 \/ index >= Z.of_nat (length intakes))%Z ->
   removeIntake index intakes = intakes)
  /\ ((0 <= index < Z.of_nat (length intakes))%Z ->
      removeIntake index intakes = without (Z.to_nat index) intakes).
Proof.
  unfold removeIntake. rewrite filter_index_remove.
  split; intros H.
  - rewrite decide_False by lia. reflexivity.
  - rewrite decide_True by lia. rewrite Z.sub_0_r. reflexivity.
Qed.

Lemma removeIntake_spec_witness :
  removeIntake 5 [ {| time := Num 6; amount := Num 100 |};
                   {| time := Num 8; amount := Num 50 |};
                   {| time := Num 10; amount := Num 25 |} ]
  = [ {| time := Num 6; amount := Num 100 |};
      {| time := Num 8; amount := Num 50 |};
      {| time := Num 10; amount := Num 25 |} ]
  /\ removeIntake 1 [ {| time := Num 6; amount := Num 100 |};
                      {| time := Num 8; amount := Num 50 |};
                      {| time := Num 10; amount := Num 25 |} ]
     = [ {| time := Num 6; amount := Num 100 |};
         {| time := Num 10; amount := Num 25 |} ].
Proof.
  split.
  - apply (proj1 (removeIntake_spec 5
                    [ {| time := Num 6; amount := Num 100 |};
                      {| time := Num 8; amount := Num 50 |};
                      {| time := Num 10; amount := Num 25 |} ])).
    simpl. lia.
  - apply (proj2 (removeIntake_spec 1
                    [ {| time := Num 6; amount := Num 100 |};
                      {| time := Num 8; amount := Num 50 |};
                      {| time := Num 10; amount := Num 25 |} ])).
    simpl. lia.
Defined.

(** ** Sorting by time *)

Section Sorting.

Context {A : Type} (compare : A -> A -> number).

Lemma sort_insert_perm (x : A) (l : list A) :
  sort_insert compare x l ≡ₚ x :: l.
Proof.
  induction l as [| y l IH]; cbn [sort_insert]; [reflexivity |].
  destruct (compare x y >? 0)%js; [| reflexivity].
  rewrite IH. apply Permutation_swap.
Qed.

Lemma sort_perm (l : list A) : sort compare l ≡ₚ l.
Proof.
  induction l as [| x l IH]; cbn [sort]; [reflexivity |].
  rewrite sort_insert_perm, IH. reflexivity.
Qed.

Lemma sort_nonempty (l : list A) :
  l <> [] -> exists first rest, sort compare l = first :: rest.
Proof.
  intros Hl. destruct (sort compare l) as [| first rest] eqn:E; [| eauto].
  exfalso. apply Hl. apply Permutation_nil_r.
  rewrite <- E. symmetry. apply sort_perm.
Qed.

End Sorting.

Section SortingByTime.

Lemma time_le_refl (e : Intake) : valid_event e -> time_le e e.
Proof.
  intros [(t & Et & _) _]. exists t, t. repeat split; try assumption. lra.
Qed.

Lemma time_le_trans (e1 e2 e3 : Intake) :
  time_le e1 e2 -> time_le e2 e3 -> time_le e1 e3.
Proof.
  intros (a & b & Ea & Eb & Hab) (b' & c & Eb' & Ec & Hbc).
  rewrite Eb in Eb'. injection Eb' as <-.
  exists a, c. repeat split; try assumption. lra.
Qed.

(** The comparator tells which of two valid events is later. *)
Lemma by_time_total (x y : Intake) :
  valid_event x -> valid_event y ->
  ((by_time x y >? 0)%js = true /\ time_le y x)
  \/ ((by_time x y >? 0)%js = false /\ time_le x y).
Proof.
  intros [(tx & Ex & _) _] [(ty & Ey & _) _].
  unfold by_time. rewrite Ex, Ey. cbn [sub lift2].
  destruct (Rle_dec (tx - ty) 0) as [H | H].
  - right. split; [apply gt_num_false; lra |].
    exists tx, ty. repeat split; try assumption. lra.
  - left. split; [apply gt_num; lra |].
    exists ty, tx. repeat split; try assumption. lra.
Qed.

(** Insertion keeps an earliest event at the head. *)
Lemma sort_insert_head (x : Intake) (l : list Intake) :
  valid_event x -> Forall valid_event l ->
  match l with [] => True | f :: _ => forall e, e ∈ l -> time_le f e end ->
  match sort_insert by_time x l with
  | [] => False
  | f :: _ => forall e, e ∈ x :: l -> time_le f e
  end.
Proof.
  intros Hx Hl Hmin. destruct l as [| y l]; cbn [sort_insert].
  - intros e He. apply list_elem_of_singleton in He. subst e.
    apply time_le_refl, Hx.
  - assert (Hy : valid_event y) by (inversion Hl; assumption).
    destruct (by_time_total x y Hx Hy) as [[E Hle] | [E Hle]]; rewrite E.
    + intros e He. apply elem_of_cons in He as [-> | He]; [exact Hle |].
      apply Hmin, He.
    + intros e He. apply elem_of_cons in He as [-> | He].
      * apply time_le_refl, Hx.
      * apply (time_le_trans _ y); [exact Hle | apply Hmin, He].
Qed.

Lemma sort_head_min (l : list Intake) :
  Forall valid_event l ->
  match sort by_time l with
  | [] => True
  | f :: _ => forall e, e ∈ l -> time_le f e
  end.
Proof.
  induction 1 as [| x l Hx Hl IH]; cbn [sort]; [exact I |].
  pose proof (sort_perm by_time l) as Hp.
  set (s := sort by_time l) in *.
  assert (Hs : Forall valid_event s) by (rewrite Hp; exact Hl).
  assert (Hmin : match s with
                 | [] => True
                 | f :: _ => forall e, e ∈ s -> time_le f e
                 end).
  { destruct s; [exact I |]. intros e He. apply IH. rewrite <- Hp. exact He. }
  pose proof (sort_insert_head x s Hx Hs Hmin) as Hins.
  destruct (sort_insert by_time x s) as [| f rest]; [exact I |].
  intros e He. apply Hins.
  apply elem_of_cons in He as [-> | He]; [left |].
  right. rewrite Hp. exact He.
Qed.

(** The head of the sorted store is an earliest event of the store. *)
Lemma sort_head_earliest (l : list Intake) (first : Intake)
    (rest : list Intake) :
  Forall valid_event l -> sort by_time l = first :: rest ->
  earliest first l.
Proof.
  intros Hl E. split.
  - rewrite <- (sort_perm by_time l), E. left.
  - pose proof (sort_head_min l Hl) as H. rewrite E in H. exact H.
Qed.

End SortingByTime.

(** ** The loops of the decay engine, point by point *)

Section Loops.

(** One pass of the inner loop over the first [n] minutes changes the
    point at each of these minutes by [point_step] and nothing else. *)
Lemma inner_loop_lookup (intake : Intake) (im : number) (n : nat)
    (data : list Point) (k : nat) :
  foldl (inner_step intake im) data (seq 0 n) !! k
  = (if decide (k < n)%nat then point_step intake im k else fun p => p)
      <$> data !! k.
Proof.
  induction n as [| n IH].
  - cbn [seq foldl]. rewrite decide_False by lia.
    destruct (data !! k); reflexivity.
  - rewrite seq_S, foldl_app. cbn [foldl]. rewrite Nat.add_0_l.
    unfold inner_step at 1.
    destruct (decide (k = n)) as [-> | Hk].
    + rewrite decide_True by lia. unfold point_step.
      destruct (timeSinceIntake im n >=? 0)%js.
      * rewrite list_lookup_alter_eq, IH, decide_False by lia.
        destruct (data !! n); reflexivity.
      * rewrite IH, decide_False by lia. reflexivity.
    + assert (E : foldl (inner_step intake im) data (seq 0 n) !! k
                  = (if decide (k < S n)%nat
                     then point_step intake im k else fun p => p) <$> data !! k).
      { rewrite IH. destruct (decide (k < n)%nat).
        - rewrite decide_True by lia. reflexivity.
        - rewrite decide_False by lia. reflexivity. }
      destruct (timeSinceIntake im n >=? 0)%js; [| exact E].
      rewrite list_lookup_alter_ne by lia. exact E.
Qed.

Lemma inner_loop_length (intake : Intake) (im : number) (n : nat)
    (data : list Point) :
  length (foldl (inner_step intake im) data (seq 0 n)) = length data.
Proof.
  induction n as [| n IH]; [reflexivity |].
  rewrite seq_S, foldl_app. cbn [foldl]. unfold inner_step at 1.
  destruct (timeSinceIntake im (0 + n) >=? 0)%js; [| exact IH].
  rewrite length_alter. exact IH.
Qed.

Lemma forEach_step_lookup (startTime : number) (data : list Point)
    (intake : Intake) (k : nat) :
  (k < TOTAL_DURATION * 60)%nat ->
  forEach_step startTime data intake !! k
  = point_step intake (intakeMinute startTime intake) k <$> data !! k.
Proof.
  intros Hk. unfold forEach_step.
  rewrite inner_loop_lookup, decide_True by exact Hk. reflexivity.
Qed.

Lemma forEach_step_length (startTime : number) (data : list Point)
    (intake : Intake) :
  length (forEach_step startTime data intake) = length data.
Proof. apply inner_loop_length. Qed.

(** After the whole [forEach], the point at minute [k] has gone through
    the [point_step] of every intake, in sorted order. *)
Lemma forEach_lookup (startTime : number) (sortedIntakes : list Intake)
    (data : list Point) (k : nat) :
  (k < TOTAL_DURATION * 60)%nat ->
  foldl (forEach_step startTime) data sortedIntakes !! k
  = (fun p =>
       foldl (fun p intake =>
                point_step intake (intakeMinute startTime intake) k p)
             p sortedIntakes)
      <$> data !! k.
Proof.
  intros Hk. revert data.
  induction sortedIntakes as [| intake rest IH]; intros data; cbn [foldl].
  - destruct (data !! k); reflexivity.
  - rewrite IH, forEach_step_lookup by exact Hk.
    destruct (data !! k); reflexivity.
Qed.

Lemma forEach_length (startTime : number) (sortedIntakes : list Intake)
    (data : list Point) :
  length (foldl (forEach_step startTime) data sortedIntakes) = length data.
Proof.
  revert data.
  induction sortedIntakes as [| intake rest IH]; intros data; cbn [foldl];
    [reflexivity |].
  rewrite IH. apply forEach_step_length.
Qed.

(** The initial array: one point per minute, level zero. *)
Lemma initial_lookup (startTime : number) (k : nat) :
  (k < TOTAL_DURATION * 60)%nat ->
  ((fun minute : nat =>
      {| ptime := ((startTime + of_nat minute / 60) %% 24)%js;
         caffeine := Num 0 |})
     <$> seq 0 (TOTAL_DURATION * 60)) !! k
  = Some {| ptime := ((startTime + of_nat k / 60) %% 24)%js;
            caffeine := Num 0 |}.
Proof.
  intros Hk. rewrite list_lookup_fmap, lookup_seq_lt by exact Hk.
  reflexivity.
Qed.

End Loops.

(** ** Positions in the window *)

Section Window.

Lemma INR_minutes : INR (TOTAL_DURATION * 60) = 1440.
Proof. rewrite INR_IZR_INZ. reflexivity. Qed.

Lemma minute_bounds (k : nat) :
  (k < TOTAL_DURATION * 60)%nat -> 0 <= INR k < 1440.
Proof.
  intros Hk. split; [apply pos_INR |].
  rewrite <- INR_minutes. apply lt_INR. exact Hk.
Qed.

(** An intake not before [startTime] sits at a whole minute of the
    window, the nearest to its distance from the start. *)
Lemma intakeMinute_valid (s t : R) (intake : Intake) :
  time intake = Num t -> 0 <= s <= t -> t < 24 ->
  intakeMinute (Num s) intake = Num (IZR (Int_part ((t - s) * 60 + / 2)))
  /\ (0 <= Int_part ((t - s) * 60 + / 2) <= 1440)%Z.
Proof.
  intros Et Hs Ht. split.
  - unfold intakeMinute. rewrite Et. cbn [sub add lift2].
    rewrite rem_wrap by lra. cbn [mul lift2 Math_round].
    do 3 f_equal. lra.
  - assert (H : (0 <= Int_part ((t - s) * 60 + / 2) < 1441)%Z).
    { apply Int_part_bounds. lra. }
    lia.
Qed.

(** Wrapped forward distance from a minute [z] of the window to the
    minute [k], in hours. *)
Lemma timeSinceIntake_valid (z : Z) (k : nat) :
  (0 <= z <= 1440)%Z -> (k < TOTAL_DURATION * 60)%nat ->
  timeSinceIntake (Num (IZR z)) k
  = Num ((if Rle_dec (IZR z) (INR k)
          then INR k - IZR z else INR k - IZR z + 1440) / 60).
Proof.
  intros Hz Hk. apply minute_bounds in Hk.
  assert (Hz' : 0 <= IZR z <= 1440).
  { split; apply IZR_le; lia. }
  unfold timeSinceIntake. rewrite of_nat_TOTAL_DURATION.
  unfold of_nat. cbn [sub add mul lift2].
  destruct (Rle_dec (IZR z) (INR k)).
  - rewrite rem_wrap by lra. rewrite div_num by lra. f_equal. lra.
  - rewrite rem_small by lra. rewrite div_num by lra. f_equal. lra.
Qed.

Lemma timeSinceIntake_nonneg (z : Z) (k : nat) :
  (0 <= z <= 1440)%Z -> (k < TOTAL_DURATION * 60)%nat ->
  exists r : R, timeSinceIntake (Num (IZR z)) k = Num r /\ 0 <= r < 24.
Proof.
  intros Hz Hk. rewrite timeSinceIntake_valid by assumption.
  apply minute_bounds in Hk.
  assert (Hz' : 0 <= IZR z <= 1440) by (split; apply IZR_le; lia).
  eexists. split; [reflexivity |].
  destruct (Rle_dec (IZR z) (INR k)); lra.
Qed.

(** The term of a valid intake for a non-negative delay. *)
Lemma contribution_valid (intake : Intake) (a r : R) :
  amount intake = Num a ->
  contribution intake (Num r) = Num (a * Rpower 0.5 (r / 5)).
Proof.
  intros Ea. unfold contribution.
  rewrite Ea, of_nat_CAFFEINE_HALF_LIFE, div_num by lra.
  rewrite pow_half. reflexivity.
Qed.

(** For a valid intake, not before the start of the window, the guard of
    the inner loop holds at every minute and the term added is positive. *)
Lemma guard_holds (s : R) (intake : Intake) (k : nat) :
  valid_event intake ->
  (exists t, time intake = Num t /\ 0 <= s <= t) ->
  (k < TOTAL_DURATION * 60)%nat ->
  exists r v : R,
    timeSinceIntake (intakeMinute (Num s) intake) k = Num r
    /\ 0 <= r < 24
    /\ (Num r >=? 0)%js = true
    /\ contribution intake (Num r) = Num v
    /\ 0 < v.
Proof.
  intros [(t & Et & Ht) (a & Ea & Ha)] (t' & Et' & Hs) Hk.
  rewrite Et in Et'. injection Et' as <-.
  destruct (intakeMinute_valid s t intake Et) as [Eim Hz]; [lra | lra |].
  destruct (timeSinceIntake_nonneg _ k Hz Hk) as (r & Er & Hr).
  exists r, (a * Rpower 0.5 (r / 5)).
  rewrite Eim. repeat split; try assumption; try lra.
  - apply ge_num. lra.
  - apply contribution_valid, Ea.
  - apply Rmult_lt_0_compat; [lra | apply Rpower_half_pos].
Qed.

Lemma point_step_valid (s : R) (intake : Intake) (k : nat) (p : Point) :
  valid_event intake ->
  (exists t, time intake = Num t /\ 0 <= s <= t) ->
  (k < TOTAL_DURATION * 60)%nat ->
  point_step intake (intakeMinute (Num s) intake) k p
  = add_caffeine
      (contribution intake
         (timeSinceIntake (intakeMinute (Num s) intake) k)) p.
Proof.
  intros Hv Hs Hk.
  destruct (guard_holds s intake k Hv Hs Hk) as (r & v & Er & _ & Hg & _).
  unfold point_step. rewrite Er, Hg. reflexivity.
Qed.

(** With every guard holding, the passes over a point add up to
    [level_sum] and leave its time alone. *)
Lemma points_fold (s : R) (sortedIntakes : list Intake) (k : nat) (p : Point) :
  Forall (fun intake =>
            valid_event intake
            /\ exists t, time intake = Num t /\ 0 <= s <= t) sortedIntakes ->
  (k < TOTAL_DURATION * 60)%nat ->
  foldl (fun p intake => point_step intake (intakeMinute (Num s) intake) k p)
        p sortedIntakes
  = {| ptime := ptime p;
       caffeine :=
         foldl (fun acc intake =>
                  (acc + contribution intake
                           (timeSinceIntake (intakeMinute (Num s) intake) k))%js)
               (caffeine p) sortedIntakes |}.
Proof.
  intros Hall Hk. revert p.
  induction Hall as [| intake rest [Hv Hs] _ IH]; intros p; cbn [foldl].
  - destruct p; reflexivity.
  - rewrite IH, point_step_valid by assumption. reflexivity.
Qed.

End Window.

(** ** The series of a valid store *)

Section Series.

(** Every event of the sorted store is valid and not before its head. *)
Lemma sorted_after_head (intakes : list Intake) (first : Intake)
    (rest : list Intake) (s : R) :
  Forall valid_event intakes -> sort by_time intakes = first :: rest ->
  time first = Num s ->
  Forall (fun intake =>
            valid_event intake
            /\ exists t, time intake = Num t /\ 0 <= s <= t) (first :: rest).
Proof.
  intros Hv E Es.
  destruct (sort_head_earliest intakes first rest Hv E) as [Hin Hmin].
  assert (Hfirst : valid_event first).
  { rewrite Forall_forall in Hv. apply Hv, Hin. }
  rewrite <- E. apply Forall_forall. intros e He.
  rewrite (sort_perm by_time intakes) in He.
  split; [rewrite Forall_forall in Hv; apply Hv, He |].
  destruct (Hmin e He) as (t1 & t2 & E1 & E2 & Hle).
  rewrite Es in E1. injection E1 as <-.
  destruct Hfirst as [(t & Et & Ht) _].
  rewrite Es in Et. injection Et as <-.
  exists t2. split; [exact E2 | lra].
Qed.

(** The engine on a valid store whose sorted form is known: a full
    window of points, each with its nominal time and the sum of all
    contributions. *)
Lemma chartData_valid (intakes : list Intake) (first : Intake)
    (rest : list Intake) :
  Forall valid_event intakes -> sort by_time intakes = first :: rest ->
  exists data : list Point,
    chartData intakes = Return data
    /\ length data = (TOTAL_DURATION * 60)%nat
    /\ forall k : nat, (k < TOTAL_DURATION * 60)%nat ->
       data !! k
       = Some {| ptime := ((time first + of_nat k / 60) %% 24)%js;
                 caffeine := level_sum (time first) (first :: rest) k |}.
Proof.
  intros Hv E.
  destruct (sort_head_earliest intakes first rest Hv E) as [Hin _].
  assert (Hfirst : valid_event first).
  { rewrite Forall_forall in Hv. apply Hv, Hin. }
  destruct Hfirst as [(s & Es & Hs) _].
  pose proof (sorted_after_head intakes first rest s Hv E Es) as Hall.
  unfold chartData. rewrite (validate_valid intakes Hv).
  cbn [snd negb]. cbv zeta. rewrite E.
  change ((first :: rest) !! 0%nat) with (Some first).
  eexists. split; [reflexivity |]. split.
  - rewrite forEach_length, length_fmap, length_seq. reflexivity.
  - intros k Hk.
    rewrite forEach_lookup, initial_lookup by exact Hk.
    rewrite Es. cbn [fmap option_fmap option_map].
    rewrite (points_fold s (first :: rest) k _ Hall Hk).
    reflexivity.
Qed.

(** What an intake adds to the window that starts at its own time. *)
Lemma own_contribution (e : Intake) (t a : R) (k : nat) :
  time e = Num t -> amount e = Num a -> 0 <= t < 24 ->
  (k < TOTAL_DURATION * 60)%nat ->
  contribution e (timeSinceIntake (intakeMinute (Num t) e) k)
  = Num (a * Rpower 0.5 (INR k / 60 / 5)).
Proof.
  intros Et Ea Ht Hk.
  destruct (intakeMinute_valid t t e Et) as [-> _]; [lra | lra |].
  replace ((t - t) * 60 + / 2) with (/ 2) by lra.
  rewrite Int_part_unit by lra.
  rewrite timeSinceIntake_valid by (assumption || lia).
  pose proof (minute_bounds k Hk) as Hb.
  destruct (Rle_dec 0 (INR k)); [| lra].
  rewrite (contribution_valid e a) by exact Ea.
  rewrite Rminus_0_r. reflexivity.
Qed.

(** The series of a single valid intake: pure decay from the intake on. *)
Lemma single_intake_series (t a : R) (k : nat) :
  0 <= t < 24 -> 0 < a <= 1000 -> (k < TOTAL_DURATION * 60)%nat ->
  point_at (chartData [ {| time := Num t; amount := Num a |} ]) k
  = Some {| ptime := ((Num t + of_nat k / 60) %% 24)%js;
            caffeine := Num (0 + a * Rpower 0.5 (INR k / 60 / 5)) |}.
Proof.
  intros Ht Ha Hk.
  set (e := {| time := Num t; amount := Num a |}).
  assert (Hv : Forall valid_event [e]).
  { apply Forall_cons; split; [apply valid_event_intro; assumption |].
    apply Forall_nil_2. }
  destruct (chartData_valid [e] e [] Hv eq_refl) as (data & -> & _ & Hdata).
  cbn [point_at]. rewrite (Hdata k Hk). do 2 f_equal.
  unfold level_sum. cbn [foldl]. change (time e) with (Num t).
  rewrite (own_contribution e t a k) by (reflexivity || assumption).
  reflexivity.
Qed.

(** Sorting two valid events, the first strictly earlier, in either
    order of entry. *)
Lemma sort_two (te tl : R) (early late : Intake) :
  time early = Num te -> time late = Num tl -> te < tl ->
  sort by_time [early; late] = [early; late]
  /\ sort by_time [late; early] = [early; late].
Proof.
  intros Ee El Hlt. cbn [sort sort_insert]. unfold by_time.
  rewrite Ee, El. cbn [sub lift2].
  rewrite gt_num_false by lra. rewrite gt_num by lra.
  split; reflexivity.
Qed.

Lemma Int_part_IZR (z : Z) : Int_part (IZR z) = z.
Proof.
  rewrite <- (Int_part_IZR_shift z 0) at 2 by lra.
  f_equal. lra.
Qed.

(** The aligned step is a step of the window, at the wrapped forward
    distance from the later intake's minute. *)
Lemma aligned_step_spec (te tl : R) (early late : Intake) (k : nat) :
  time early = Num te -> time late = Num tl -> 0 <= te <= tl -> tl < 24 ->
  (k < TOTAL_DURATION * 60)%nat ->
  (aligned_step early late k < TOTAL_DURATION * 60)%nat
  /\ INR (aligned_step early late k)
     = (if Rle_dec (IZR (Int_part ((tl - te) * 60 + / 2))) (INR k)
        then INR k - IZR (Int_part ((tl - te) * 60 + / 2))
        else INR k - IZR (Int_part ((tl - te) * 60 + / 2)) + 1440).
Proof.
  intros Ee El Hte Htl Hk. unfold aligned_step. rewrite Ee.
  destruct (intakeMinute_valid te tl late El Hte Htl) as [-> Hd].
  cbn [to_index]. rewrite Int_part_IZR.
  set (d := Int_part ((tl - te) * 60 + / 2)) in *.
  assert (Ed : INR (Z.to_nat d) = IZR d).
  { rewrite INR_IZR_INZ, Z2Nat.id by lia. reflexivity. }
  pose proof INR_minutes as EN.
  pose proof (minute_bounds k Hk) as Hb.
  set (N := (TOTAL_DURATION * 60)%nat) in *.
  assert (HdN : (Z.to_nat d <= N)%nat).
  { apply INR_le. rewrite Ed, EN. apply IZR_le. lia. }
  destruct (Rle_dec (IZR d) (INR k)) as [Hle | Hgt].
  - assert (Hdk : (Z.to_nat d <= k)%nat) by (apply INR_le; rewrite Ed; exact Hle).
    replace (k + N - Z.to_nat d)%nat with (k - Z.to_nat d + 1 * N)%nat by lia.
    rewrite Nat.Div0.mod_add, Nat.mod_small by lia.
    split; [lia |]. rewrite minus_INR, Ed by exact Hdk. reflexivity.
  - assert (Hkd : (k < Z.to_nat d)%nat).
    { apply INR_lt. rewrite Ed. lra. }
    rewrite Nat.mod_small by lia.
    split; [lia |]. rewrite minus_INR, plus_INR, Ed, EN by lia. lra.
Qed.

(** The level of two valid intakes, the first strictly earlier, entered
    in either order: the earlier one decays from step 0, the later one
    from its own minute of the window. *)
Lemma two_intakes_level (te tl ae al : R) (k : nat) :
  0 <= te < 24 -> 0 <= tl < 24 -> te < tl ->
  0 < ae <= 1000 -> 0 < al <= 1000 ->
  (k < TOTAL_DURATION * 60)%nat ->
  let early := {| time := Num te; amount := Num ae |} in
  let late := {| time := Num tl; amount := Num al |} in
  let v := Num (0 + ae * Rpower 0.5 (INR k / 60 / 5)
                + al * Rpower 0.5 (INR (aligned_step early late k) / 60 / 5)) in
  level_at (chartData [early; late]) k = Some v
  /\ level_at (chartData [late; early]) k = Some v.
Proof.
  intros Hte Htl Hlt Hae Hal Hk early late v.
  destruct (sort_two te tl early late eq_refl eq_refl Hlt) as [S1 S2].
  assert (Hve : valid_event early) by (apply valid_event_intro; assumption).
  assert (Hvl : valid_event late) by (apply valid_event_intro; assumption).
  assert (Hlevel : level_sum (time early) [early; late] k = v).
  { unfold level_sum. cbn [foldl]. change (time early) with (Num te).
    rewrite (own_contribution early te ae k) by (reflexivity || assumption).
    destruct (intakeMinute_valid te tl late eq_refl) as [-> Hd]; [lra | lra |].
    rewrite timeSinceIntake_valid by assumption.
    rewrite (contribution_valid late al) by reflexivity.
    destruct (aligned_step_spec te tl early late k eq_refl eq_refl)
      as [_ <-]; [lra | lra | exact Hk |].
    reflexivity. }
  split.
  - destruct (chartData_valid [early; late] early [late]) as (data & -> & _ & Hdata);
      [repeat (apply Forall_cons; split; [assumption |]); apply Forall_nil_2
      | exact S1 |].
    unfold level_at. cbn [point_at]. rewrite (Hdata k Hk).
    cbn [fmap option_fmap option_map caffeine]. rewrite Hlevel. reflexivity.
  - destruct (chartData_valid [late; early] early [late]) as (data & -> & _ & Hdata);
      [repeat (apply Forall_cons; split; [assumption |]); apply Forall_nil_2
      | exact S2 |].
    unfold level_at. cbn [point_at]. rewrite (Hdata k Hk).
    cbn [fmap option_fmap option_map caffeine]. rewrite Hlevel. reflexivity.
Qed.

End Series.



(** C5.  For a single valid intake at time [t] with amount [a], the
    point at step 0 carries the time [t] and the level [a] exactly; the
    level at step 300 (5 hours later) is [a / 2] and at step 600 (10 hours
    later) [a / 4]. *)
Theorem single_intake_half_life (t a : R) :
  0 <= t < 24 -> 0 < a <= 1000 ->
  point_at (chartData [ {| time := Num t; amount := Num a |} ]) 0
  = Some {| ptime := Num t; caffeine := Num a |}
  /\ level_at (chartData [ {| time := Num t; amount := Num a |} ]) 300
     = Some (Num (a / 2))
  /\ level_at (chartData [ {| time := Num t; amount := Num a |} ]) 600
     = Some (Num (a / 4)).
Proof.
  intros Ht Ha. unfold level_at.
  assert (H0 : (0 < TOTAL_DURATION * 60)%nat) by (unfold TOTAL_DURATION; lia).
  assert (H300 : (300 < TOTAL_DURATION * 60)%nat)
    by (unfold TOTAL_DURATION; lia).
  assert (H600 : (600 < TOTAL_DURATION * 60)%nat)
    by (unfold TOTAL_DURATION; lia).
  rewrite !single_intake_series by assumption.
  cbn [fmap option_fmap option_map caffeine].
  repeat split.
  - unfold of_nat. change (INR 0) with 0.
    rewrite div_num by lra. cbn [add lift2].
    rewrite rem_small by lra.
    replace (0 / 60 / 5) with 0 by lra. rewrite Rpower_half_0.
    do 2 f_equal; f_equal; lra.
  - rewrite INR_IZR_INZ. change (Z.of_nat 300) with 300%Z.
    replace (300 / 60 / 5) with 1 by lra. rewrite Rpower_half_1.
    do 2 f_equal. lra.
  - rewrite INR_IZR_INZ. change (Z.of_nat 600) with 600%Z.
    replace (600 / 60 / 5) with 2 by lra. rewrite Rpower_half_2.
    do 2 f_equal. lra.
Qed.

Lemma single_intake_half_life_witness :
  point_at (chartData [ {| time := Num 6; amount := Num 100 |} ]) 0
  = Some {| ptime := Num 6; caffeine := Num 100 |}
  /\ level_at (chartData [ {| time := Num 6; amount := Num 100 |} ]) 300
     = Some (Num (100 / 2))
  /\ level_at (chartData [ {| time := Num 6; amount := Num 100 |} ]) 600
     = Some (Num (100 / 4)).
Proof. apply (single_intake_half_life 6 100); lra. Defined.

(** C6.  For a non-empty valid store the engine returns exactly 1440
    points; [start] is the time of an event of the store that no event
    precedes, and the point at step [k] has the nominal time
    [(start + k / 60) % 24], which is [start + k / 60] brought back into
    [[0, 24)] by at most one wrap, the offset [k / 60] running over
    [[0, 24)]. *)
Theorem chartData_window (intakes : list Intake) :
  intakes <> [] -> Forall valid_event intakes ->
  exists (data : list Point) (first : Intake) (start : R),
    chartData intakes = Return data
    /\ length data = 1440%nat
    /\ earliest first intakes
    /\ time first = Num start
    /\ forall k : nat, (k < 1440)%nat ->
       exists p : Point,
         data !! k = Some p
         /\ ptime p = ((Num start + of_nat k / 60) %% 24)%js
         /\ 0 <= INR k / 60 < 24
         /\ ptime p = Num (if Rlt_dec (start + INR k / 60) 24
                           then start + INR k / 60
                           else start + INR k / 60 - 24).
Proof.
  intros Hne Hv.
  destruct (sort_nonempty by_time intakes Hne) as (first & rest & E).
  destruct (chartData_valid intakes first rest Hv E) as (data & Ed & Hlen & Hdata).
  pose proof (sort_head_earliest intakes first rest Hv E) as Hfirst.
  assert (Hvf : valid_event first).
  { rewrite Forall_forall in Hv. apply Hv, Hfirst. }
  destruct Hvf as [(start & Es & Hs) _].
  exists data, first, start.
  repeat split; try assumption; try apply Hfirst.
  intros k Hk.
  change 1440%nat with (TOTAL_DURATION * 60)%nat in Hk.
  pose proof (minute_bounds k Hk) as Hb.
  eexists. split; [apply (Hdata k Hk) |]. cbn [ptime]. rewrite Es.
  split; [reflexivity |]. split; [lra |].
  unfold of_nat. rewrite div_num by lra. cbn [add lift2].
  destruct (Rlt_dec (start + INR k / 60) 24).
  - apply rem_small. lra.
  - apply rem_wrap; lra.
Qed.

Lemma chartData_window_witness :
  exists (data : list Point) (first : Intake) (start : R),
    chartData [ {| time := Num 14; amount := Num 100 |};
                {| time := Num 6; amount := Num 100 |} ] = Return data
    /\ length data = 1440%nat
    /\ earliest first [ {| time := Num 14; amount := Num 100 |};
                        {| time := Num 6; amount := Num 100 |} ]
    /\ time first = Num start
    /\ forall k : nat, (k < 1440)%nat ->
       exists p : Point,
         data !! k = Some p
         /\ ptime p = ((Num start + of_nat k / 60) %% 24)%js
         /\ 0 <= INR k / 60 < 24
         /\ ptime p = Num (if Rlt_dec (start + INR k / 60) 24
                           then start + INR k / 60
                           else start + INR k / 60 - 24).
Proof.
  apply (chartData_window [ {| time := Num 14; amount := Num 100 |};
                            {| time := Num 6; amount := Num 100 |} ]).
  - discriminate.
  - repeat (apply Forall_cons; split; [apply valid_event_intro; lra |]).
    apply Forall_nil_2.
Defined.

(** C7.  For a non-empty valid store and every step [k] of the window,
    every event of the store has a wrapped forward distance that is a
    non-negative number, so the guard of the inner loop holds for it, and
    the term it adds is strictly positive; the level at step [k] is the
    sum of the terms of all events of the sorted store, none skipped. *)
Theorem every_intake_contributes (intakes : list Intake) :
  intakes <> [] -> Forall valid_event intakes ->
  exists (first : Intake) (rest : list Intake),
    sort by_time intakes = first :: rest
    /\ first :: rest ≡ₚ intakes
    /\ forall k : nat, (k < 1440)%nat ->
       (forall intake : Intake, intake ∈ intakes ->
        exists r v : R,
          timeSinceIntake (intakeMinute (time first) intake) k = Num r
          /\ 0 <= r < 24
          /\ (Num r >=? 0)%js = true
          /\ contribution intake (Num r) = Num v
          /\ 0 < v)
       /\ level_at (chartData intakes) k
          = Some (level_sum (time first) (first :: rest) k).
Proof.
  intros Hne Hv.
  destruct (sort_nonempty by_time intakes Hne) as (first & rest & E).
  exists first, rest. split; [exact E |].
  split; [rewrite <- E; apply sort_perm |].
  intros k Hk. change 1440%nat with (TOTAL_DURATION * 60)%nat in Hk.
  pose proof (sort_head_earliest intakes first rest Hv E) as [Hin Hmin].
  assert (Hvf : valid_event first).
  { rewrite Forall_forall in Hv. apply Hv, Hin. }
  destruct Hvf as [(s & Es & Hs) _].
  split.
  - intros intake Hi. rewrite Es.
    apply guard_holds; [rewrite Forall_forall in Hv; apply Hv, Hi | | exact Hk].
    destruct (Hmin intake Hi) as (t1 & t2 & E1 & E2 & Hle).
    rewrite Es in E1. injection E1 as <-.
    exists t2. split; [exact E2 | lra].
  - destruct (chartData_valid intakes first rest Hv E) as (data & -> & _ & Hdata).
    unfold level_at. cbn [point_at]. rewrite (Hdata k Hk). reflexivity.
Qed.

Lemma every_intake_contributes_witness :
  exists (first : Intake) (rest : list Intake),
    sort by_time [ {| time := Num 14; amount := Num 100 |};
                   {| time := Num 6; amount := Num 100 |} ] = first :: rest
    /\ first :: rest ≡ₚ [ {| time := Num 14; amount := Num 100 |};
                          {| time := Num 6; amount := Num 100 |} ]
    /\ forall k : nat, (k < 1440)%nat ->
       (forall intake : Intake,
          intake ∈ [ {| time := Num 14; amount := Num 100 |};
                     {| time := Num 6; amount := Num 100 |} ] ->
        exists r v : R,
          timeSinceIntake (intakeMinute (time first) intake) k = Num r
          /\ 0 <= r < 24
          /\ (Num r >=? 0)%js = true
          /\ contribution intake (Num r) = Num v
          /\ 0 < v)
       /\ level_at (chartData [ {| time := Num 14; amount := Num 100 |};
                                {| time := Num 6; amount := Num 100 |} ]) k
          = Some (level_sum (time first) (first :: rest) k).
Proof.
  apply (every_intake_contributes
           [ {| time := Num 14; amount := Num 100 |};
             {| time := Num 6; amount := Num 100 |} ]).
  - discriminate.
  - repeat (apply Forall_cons; split; [apply valid_event_intro; lra |]).
    apply Forall_nil_2.
Defined.

(** C2 (as the code has it).  For two valid events with distinct times,
    [early] the one with the smaller time, the level of the joint series
    at step [k], whichever way the two were entered, is the level of
    [early]'s single-intake series at the same step [k] plus the level of
    [late]'s single-intake series at the step aligned with [k]: the step
    [(k + 1440 - d) mod 1440], [d] being [late]'s minute in the joint
    window. *)
Theorem superposition_aligned (early late : Intake) (k : nat) :
  valid_event early -> valid_event late ->
  time_le early late -> time early <> time late -> (k < 1440)%nat ->
  exists v v1 v2 : number,
    level_at (chartData [early; late]) k = Some v
    /\ level_at (chartData [late; early]) k = Some v
    /\ level_at (chartData [early]) k = Some v1
    /\ level_at (chartData [late]) (aligned_step early late k) = Some v2
    /\ v = (v1 + v2)%js.
Proof.
  intros [(te & Ete & Hte) (ae & Eae & Hae)] [(tl & Etl & Htl) (al & Eal & Hal)]
         (te' & tl' & Ete' & Etl' & Hle) Hne Hk.
  destruct early as [tE aE], late as [tL aL]. cbn [time amount] in *.
  subst tE aE tL aL.
  injection Ete' as <-. injection Etl' as <-.
  assert (Hlt : te < tl).
  { destruct (Rle_lt_or_eq_dec te tl Hle) as [H | H]; [exact H |].
    exfalso. apply Hne. rewrite H. reflexivity. }
  change 1440%nat with (TOTAL_DURATION * 60)%nat in Hk.
  destruct (two_intakes_level te tl ae al k Hte Htl Hlt Hae Hal Hk) as [J1 J2].
  destruct (aligned_step_spec te tl
              {| time := Num te; amount := Num ae |}
              {| time := Num tl; amount := Num al |} k eq_refl eq_refl)
    as [Hj _]; [lra | lra | exact Hk |].
  eexists _, _, _.
  split; [exact J1 |]. split; [exact J2 |].
  unfold level_at. rewrite !single_intake_series by assumption.
  cbn [fmap option_fmap option_map caffeine].
  split; [reflexivity |]. split; [reflexivity |].
  cbn [add lift2]. f_equal. lra.
Qed.

Lemma superposition_aligned_witness :
  exists v v1 v2 : number,
    level_at (chartData [ {| time := Num 6; amount := Num 100 |};
                          {| time := Num 14; amount := Num 100 |} ]) 0
    = Some v
    /\ level_at (chartData [ {| time := Num 14; amount := Num 100 |};
                             {| time := Num 6; amount := Num 100 |} ]) 0
       = Some v
    /\ level_at (chartData [ {| time := Num 6; amount := Num 100 |} ]) 0
       = Some v1
    /\ level_at (chartData [ {| time := Num 14; amount := Num 100 |} ])
         (aligned_step {| time := Num 6; amount := Num 100 |}
                       {| time := Num 14; amount := Num 100 |} 0)
       = Some v2
    /\ v = (v1 + v2)%js.
Proof.
  apply (superposition_aligned {| time := Num 6; amount := Num 100 |}
                               {| time := Num 14; amount := Num 100 |} 0).
  - apply valid_event_intro; lra.
  - apply valid_event_intro; lra.
  - exists 6, 14. repeat split; lra.
  - intros H. injection H as H. lra.
  - lia.
Defined.

(** C2 (as stated) fails.  With 100 mg at 6:00 and 100 mg at 14:00, step
    0 of the joint series shows 6:00, where the later intake counts with
    what is left of it 16 hours on, while step 0 of its own series shows
    the whole dose: the joint level is below the sum of the two. *)
Lemma superposition_same_index_fails :
  valid_event {| time := Num 6; amount := Num 100 |}
  /\ valid_event {| time := Num 14; amount := Num 100 |}
  /\ time {| time := Num 6; amount := Num 100 |}
     <> time {| time := Num 14; amount := Num 100 |}
  /\ ~ superposition_same_index {| time := Num 6; amount := Num 100 |}
                                {| time := Num 14; amount := Num 100 |}.
Proof.
  split; [apply valid_event_intro; lra |].
  split; [apply valid_event_intro; lra |].
  split; [cbn [time]; intros H; injection H as H; lra |].
  intros Hsup.
  assert (H0 : (0 < TOTAL_DURATION * 60)%nat) by (unfold TOTAL_DURATION; lia).
  destruct (Hsup 0%nat H0) as (v & v1 & v2 & Ev & Ev1 & Ev2 & Esum).
  destruct (two_intakes_level 6 14 100 100 0) as [J _]; try lra; [exact H0 |].
  cbv zeta in J. rewrite J in Ev. injection Ev as <-.
  unfold level_at in Ev1, Ev2.
  rewrite single_intake_series in Ev1, Ev2 by (lra || exact H0).
  cbn [fmap option_fmap option_map caffeine] in Ev1, Ev2.
  injection Ev1 as <-. injection Ev2 as <-.
  cbn [add lift2] in Esum. injection Esum as Esum.
  destruct (aligned_step_spec 6 14
              {| time := Num 6; amount := Num 100 |}
              {| time := Num 14; amount := Num 100 |} 0 eq_refl eq_refl)
    as [_ Ej]; [lra | lra | exact H0 |].
  replace ((14 - 6) * 60 + / 2) with (IZR 480 + / 2) in Ej by lra.
  rewrite Int_part_IZR_shift in Ej by lra.
  change (INR 0) with 0 in *.
  destruct (Rle_dec 480 0) as [Habs | _]; [lra |].
  rewrite Ej in Esum.
  replace (0 / 60 / 5) with 0 in Esum by lra.
  rewrite Rpower_half_0 in Esum.
  pose proof (Rpower_half_lt_1 ((0 - 480 + 1440) / 60 / 5)) as Hdecay.
  lra.
Qed.

(** ** Worked scenarios *)

(** The seed store [{ time: 6, amount: 100 }] after one [addIntake]. *)
Example addIntake_seed :
  addIntake [ {| time := Num 6; amount := Num 100 |} ]
  = Return [ {| time := Num 6; amount := Num 100 |};
             {| time := Num 8; amount := Num 100 |} ].
Proof.
  rewrite (addIntake_last [ {| time := Num 6; amount := Num 100 |} ]
             {| time := Num 6; amount := Num 100 |} eq_refl).
  cbn [time add lift2 app]. rewrite rem_small by lra.
  replace (6 + 2) with 8 by lra. reflexivity.
Qed.

(** Late in the evening the new time wraps past midnight. *)
Example addIntake_wraps :
  addIntake [ {| time := Num 23; amount := Num 100 |} ]
  = Return [ {| time := Num 23; amount := Num 100 |};
             {| time := Num 1; amount := Num 100 |} ].
Proof.
  rewrite (addIntake_last [ {| time := Num 23; amount := Num 100 |} ]
             {| time := Num 23; amount := Num 100 |} eq_refl).
  cbn [time add lift2 app]. rewrite rem_wrap by lra.
  replace (23 + 2 - 24) with 1 by lra. reflexivity.
Qed.

(** [addIntake] on an empty store throws. *)
Example addIntake_empty : addIntake [] = Throw TypeError.
Proof. reflexivity. Qed.

(** Removing the only entry empties the store. *)
Example removeIntake_only :
  removeIntake 0 [ {| time := Num 6; amount := Num 100 |} ] = [].
Proof. reflexivity. Qed.

(** Intakes at 6:00 and 14:00, 100 mg each: at 14:00 (step 480) the level
    is the fresh dose plus what is left of the first after 8 hours. *)
Example two_intakes_at_14 :
  level_at (chartData [ {| time := Num 6; amount := Num 100 |};
                        {| time := Num 14; amount := Num 100 |} ]) 480
  = Some (Num (100 * Rpower 0.5 (8 / 5) + 100)).
Proof.
  assert (Hk : (480 < TOTAL_DURATION * 60)%nat) by (unfold TOTAL_DURATION; lia).
  destruct (two_intakes_level 6 14 100 100 480) as [-> _]; try lra; [exact Hk |].
  destruct (aligned_step_spec 6 14
              {| time := Num 6; amount := Num 100 |}
              {| time := Num 14; amount := Num 100 |} 480 eq_refl eq_refl)
    as [_ Ej]; [lra | lra | exact Hk |].
  rewrite Ej.
  replace ((14 - 6) * 60 + / 2) with (IZR 480 + / 2) by lra.
  rewrite Int_part_IZR_shift by lra.
  rewrite INR_IZR_INZ. change (Z.of_nat 480) with 480%Z.
  destruct (Rle_dec 480 480) as [_ | Habs]; [| lra].
  replace (480 / 60 / 5) with (8 / 5) by lra.
  replace ((480 - 480) / 60 / 5) with 0 by lra.
  rewrite Rpower_half_0. do 2 f_equal. lra.
Qed.

(** ** Further properties of the validator and of the engine's result *)

(** X1.  On a store whose fields are all numbers, [validateIntakes]
    succeeds exactly when every event satisfies the invariant of the data
    model: time in [[0, 24)] and amount in [(0, 1000]]. *)
Theorem validate_accepts_iff (intakes : list Intake) :
  Forall (fun e => time e <> NaN /\ amount e <> NaN) intakes ->
  (accepts intakes <-> Forall valid_event intakes).
Proof.
  intros Hnum. split; [| apply validate_valid].
  induction Hnum as [| e rest [Ht Ha] _ IH]; intros Hacc; [constructor |].
  destruct e as [[| t] [| a]]; cbn [time amount] in *; try congruence.
  unfold accepts in Hacc. cbn [validateIntakes time amount] in Hacc.
  destruct (Rle_dec 0 t) as [Ht0 | Ht0];
    [destruct (Rlt_dec t 24) as [Ht1 | Ht1] |];
    try (rewrite time_check_fails in Hacc by lra; discriminate Hacc).
  rewrite time_check_passes in Hacc by lra.
  destruct (Rlt_dec 0 a) as [Ha0 | Ha0];
    [destruct (Rle_dec a 1000) as [Ha1 | Ha1] |];
    try (rewrite amount_check_fails in Hacc by lra; discriminate Hacc).
  rewrite amount_check_passes in Hacc by lra.
  constructor; [apply valid_event_intro; lra | apply IH, Hacc].
Qed.

Lemma validate_accepts_iff_witness :
  accepts [ {| time := Num 6; amount := Num 100 |};
            {| time := Num 25; amount := Num 5 |} ]
  <-> Forall valid_event [ {| time := Num 6; amount := Num 100 |};
                           {| time := Num 25; amount := Num 5 |} ].
Proof.
  apply (validate_accepts_iff [ {| time := Num 6; amount := Num 100 |};
                                {| time := Num 25; amount := Num 5 |} ]).
  repeat (apply Forall_cons; split; [split; discriminate |]).
  apply Forall_nil_2.
Defined.

(** X2.  [validateIntakes] has three outcomes and no other: success with
    the message cleared, or failure with one of the two messages.  So the
    message is empty exactly when the flag is set: the alert shows exactly
    when the chart is withheld. *)
Theorem validate_outcomes (intakes : list Intake) :
  (accepts intakes
   \/ rejects intakes OutOfRangeTime
   \/ rejects intakes OutOfRangeAmount)
  /\ ((validateIntakes intakes).1 = EmptyString
      <-> (validateIntakes intakes).2 = true).
Proof.
  unfold accepts, rejects.
  induction intakes as [| e rest IH]; cbn [validateIntakes].
  - split; [left; reflexivity | split; reflexivity].
  - destruct ((time e <? 0) || (time e >=? 24))%js.
    + split; [right; left; reflexivity |].
      cbn [fst snd message]. split; discriminate.
    + destruct ((amount e <=? 0) || (amount e >? 1000))%js; [| exact IH].
      split; [right; right; reflexivity |].
      cbn [fst snd message]. split; discriminate.
Qed.

(** X3.  [chartData] throws on the empty store and on no other; on a
    non-empty store it returns the empty array when validation fails and
    exactly 1440 points when it succeeds, whatever the fields hold. *)
Theorem chartData_shape (intakes : list Intake) :
  (chartData intakes = Throw TypeError <-> intakes = [])
  /\ (intakes <> [] ->
      exists data : list Point,
        chartData intakes = Return data
        /\ length data
           = if (validateIntakes intakes).2 then 1440%nat else 0%nat).
Proof.
  assert (Hshape : intakes <> [] ->
            exists data : list Point,
              chartData intakes = Return data
              /\ length data
                 = if (validateIntakes intakes).2 then 1440%nat else 0%nat).
  { intros Hne. unfold chartData.
    destruct (validateIntakes intakes).2; cbn [negb].
    - destruct (sort_nonempty by_time intakes Hne) as (first & rest & E).
      cbv zeta. rewrite E.
      change ((first :: rest) !! 0%nat) with (Some first).
      eexists. split; [reflexivity |].
      rewrite forEach_length, length_fmap, length_seq. reflexivity.
    - exists []. split; reflexivity. }
  split; [| exact Hshape].
  split.
  - intros Hthrow. destruct intakes as [| e rest]; [reflexivity |].
    destruct Hshape as (data & E & _); [discriminate |].
    rewrite E in Hthrow. discriminate Hthrow.
  - intros ->. reflexivity.
Qed.

Lemma chartData_shape_witness :
  exists data : list Point,
    chartData [ {| time := NaN; amount := Num 100 |} ] = Return data
    /\ length data
       = if (validateIntakes [ {| time := NaN; amount := Num 100 |} ]).2
         then 1440%nat else 0%nat.
Proof.
  apply (proj2 (chartData_shape [ {| time := NaN; amount := Num 100 |} ])).
  discriminate.
Defined.

(** ** Levels as sums of real terms *)

Section Sums.

Lemma Rsum_perm (l1 l2 : list R) : l1 ≡ₚ l2 -> Rsum l1 = Rsum l2.
Proof.
  unfold Rsum.
  induction 1 as [| x l l' _ IH | x y l | l l' l'' _ IH1 _ IH2];
    cbn [foldr]; [reflexivity | rewrite IH; reflexivity | lra | congruence].
Qed.

Lemma Rsum_le_pointwise {A : Type} (f g : A -> R) (l : list A) :
  Forall (fun x => f x <= g x) l -> Rsum (f <$> l) <= Rsum (g <$> l).
Proof.
  unfold Rsum. induction 1 as [| x l Hx _ IH]; cbn [fmap list_fmap foldr]; lra.
Qed.

Lemma Rsum_pos {A : Type} (f : A -> R) (l : list A) :
  l <> [] -> Forall (fun x => 0 < f x) l -> 0 < Rsum (f <$> l).
Proof.
  intros Hne Hall. unfold Rsum.
  assert (Hnn : forall l', Forall (fun x => 0 < f x) l' ->
                           0 <= foldr Rplus 0 (f <$> l')).
  { induction 1; cbn [fmap list_fmap foldr]; lra. }
  destruct Hall as [| x l Hx Hl]; [contradiction |].
  cbn [fmap list_fmap foldr]. specialize (Hnn l Hl). lra.
Qed.

Lemma Rsum_ge_member {A : Type} (f : A -> R) (l : list A) (x : A) :
  Forall (fun y => 0 < f y) l -> x ∈ l -> f x <= Rsum (f <$> l).
Proof.
  intros Hall Hx. unfold Rsum.
  induction Hall as [| y l Hy Hl IH]; [inversion Hx |].
  assert (Hnn : 0 <= foldr Rplus 0 (f <$> l)).
  { clear IH Hx. induction Hl; cbn [fmap list_fmap foldr]; lra. }
  cbn [fmap list_fmap foldr].
  apply elem_of_cons in Hx as [-> | Hx]; [lra |].
  specialize (IH Hx). lra.
Qed.

Lemma Rpower_half_le_1 (y : R) : 0 <= y -> Rpower 0.5 y <= 1.
Proof.
  intros [Hy | <-].
  - left. apply Rpower_half_lt_1, Hy.
  - right. apply Rpower_half_0.
Qed.

(** The term of a valid intake, not before the start: a positive part
    of its amount. *)
Lemma term_valid (s : R) (intake : Intake) (k : nat) :
  valid_event intake ->
  (exists t, time intake = Num t /\ 0 <= s <= t) ->
  (k < TOTAL_DURATION * 60)%nat ->
  contribution intake (timeSinceIntake (intakeMinute (Num s) intake) k)
  = Num (term (Num s) k intake)
  /\ 0 < term (Num s) k intake <= num_value (amount intake).
Proof.
  intros Hv Hs Hk.
  destruct (guard_holds s intake k Hv Hs Hk) as (r & v & Er & Hr & _ & Ec & Hpos).
  destruct Hv as [_ (a & Ea & Ha)].
  unfold term. rewrite Er, Ec, Ea. cbn [num_value].
  split; [reflexivity |]. split; [exact Hpos |].
  rewrite (contribution_valid intake a r Ea) in Ec. injection Ec as <-.
  assert (Hp : Rpower 0.5 (r / 5) <= 1) by (apply Rpower_half_le_1; lra).
  pose proof (Rpower_half_pos (r / 5)). nra.
Qed.

(** [level_sum] is the real sum of the terms. *)
Lemma level_sum_real (s : R) (sortedIntakes : list Intake) (k : nat) :
  Forall (fun intake =>
            valid_event intake
            /\ exists t, time intake = Num t /\ 0 <= s <= t) sortedIntakes ->
  (k < TOTAL_DURATION * 60)%nat ->
  level_sum (Num s) sortedIntakes k
  = Num (0 + Rsum (term (Num s) k <$> sortedIntakes)).
Proof.
  intros Hall Hk. unfold level_sum.
  assert (Hgen : forall x : R,
            foldl (fun acc intake =>
                     (acc + contribution intake
                              (timeSinceIntake (intakeMinute (Num s) intake) k))%js)
                  (Num x) sortedIntakes
            = Num (x + Rsum (term (Num s) k <$> sortedIntakes))).
  { induction Hall as [| intake rest [Hv Hs] _ IH]; intros x;
      cbn [foldl fmap list_fmap].
    - unfold Rsum. cbn [foldr]. f_equal. lra.
    - destruct (term_valid s intake k Hv Hs Hk) as [-> _].
      cbn [add lift2]. rewrite IH. unfold Rsum. cbn [foldr]. f_equal. lra. }
  apply Hgen.
Qed.

End Sums.

Section RealSeries.

(** Everything known about the series of a valid non-empty store, with
    the levels as real sums. *)
Lemma valid_series (intakes : list Intake) :
  intakes <> [] -> Forall valid_event intakes ->
  exists (first : Intake) (rest : list Intake) (s : R) (data : list Point),
    sort by_time intakes = first :: rest
    /\ time first = Num s /\ 0 <= s < 24
    /\ earliest first intakes
    /\ Forall (fun intake =>
                 valid_event intake
                 /\ exists t, time intake = Num t /\ 0 <= s <= t)
              (first :: rest)
    /\ startTime intakes = Return (Num s)
    /\ chartData intakes = Return data
    /\ length data = (TOTAL_DURATION * 60)%nat
    /\ forall k : nat, (k < TOTAL_DURATION * 60)%nat ->
       data !! k
       = Some {| ptime := ((Num s + of_nat k / 60) %% 24)%js;
                 caffeine := Num (0 + Rsum (term (Num s) k <$> first :: rest)) |}.
Proof.
  intros Hne Hv.
  destruct (sort_nonempty by_time intakes Hne) as (first & rest & E).
  pose proof (sort_head_earliest intakes first rest Hv E) as Hfirst.
  assert (Hvf : valid_event first).
  { rewrite Forall_forall in Hv. apply Hv, Hfirst. }
  destruct Hvf as [(s & Es & Hs) _].
  pose proof (sorted_after_head intakes first rest s Hv E Es) as Hall.
  destruct (chartData_valid intakes first rest Hv E) as (data & Ed & Hlen & Hdata).
  exists first, rest, s, data.
  repeat split; try assumption; try apply Hfirst; try lra.
  - unfold startTime. cbv zeta. rewrite E, <- Es. reflexivity.
  - intros k Hk. rewrite (Hdata k Hk), Es.
    rewrite (level_sum_real s (first :: rest) k Hall Hk). reflexivity.
Qed.

End RealSeries.

(** X4.  The order in which the intakes were entered does not matter:
    two valid stores with the same events in different orders give the
    same series (over exact arithmetic). *)
Theorem chartData_order_irrelevant (l1 l2 : list Intake) :
  Forall valid_event l1 -> l1 ≡ₚ l2 -> chartData l1 = chartData l2.
Proof.
  intros Hv1 Hp.
  destruct l1 as [| e1 l1'].
  { apply Permutation_nil_l in Hp. subst l2. reflexivity. }
  assert (Hne1 : e1 :: l1' <> []) by discriminate.
  assert (Hne2 : l2 <> []).
  { intros ->. apply Permutation_nil_r in Hp. discriminate Hp. }
  assert (Hv2 : Forall valid_event l2) by (rewrite <- Hp; exact Hv1).
  destruct (valid_series _ Hne1 Hv1)
    as (f1 & r1 & s1 & d1 & E1 & Es1 & _ & [Hin1 Hmin1] & _ & _ & -> & Hl1 & Hd1).
  destruct (valid_series _ Hne2 Hv2)
    as (f2 & r2 & s2 & d2 & E2 & Es2 & _ & [Hin2 Hmin2] & _ & _ & -> & Hl2 & Hd2).
  assert (Hs : s1 = s2).
  { rewrite <- Hp in Hin2. rewrite Hp in Hin1.
    destruct (Hmin1 f2 Hin2) as (a & b & Ea & Eb & Hab).
    destruct (Hmin2 f1 Hin1) as (b' & a' & Eb' & Ea' & Hba).
    rewrite Es1 in Ea, Ea'. rewrite Es2 in Eb, Eb'.
    injection Ea as <-. injection Ea' as <-.
    injection Eb as <-. injection Eb' as <-. lra. }
  subst s2. f_equal. apply list_eq. intros k.
  destruct (decide (k < TOTAL_DURATION * 60)%nat) as [Hk | Hk].
  - rewrite (Hd1 k Hk), (Hd2 k Hk). do 4 f_equal.
    apply Rsum_perm, fmap_Permutation.
    rewrite <- E1, <- E2, !sort_perm. exact Hp.
  - rewrite !lookup_ge_None_2 by lia. reflexivity.
Qed.

Lemma chartData_order_irrelevant_witness :
  chartData [ {| time := Num 14; amount := Num 100 |};
              {| time := Num 6; amount := Num 50 |} ]
  = chartData [ {| time := Num 6; amount := Num 50 |};
                {| time := Num 14; amount := Num 100 |} ].
Proof.
  apply (chartData_order_irrelevant
           [ {| time := Num 14; amount := Num 100 |};
             {| time := Num 6; amount := Num 50 |} ]
           [ {| time := Num 6; amount := Num 50 |};
             {| time := Num 14; amount := Num 100 |} ]).
  - repeat (apply Forall_cons; split; [apply valid_event_intro; lra |]).
    apply Forall_nil_2.
  - apply Permutation_swap.
Defined.

(** X5.  Every level of the series of a valid non-empty store is
    strictly positive and at most the sum of the amounts of the store. *)
Theorem level_bounds (intakes : list Intake) (k : nat) :
  intakes <> [] -> Forall valid_event intakes -> (k < 1440)%nat ->
  exists v : R,
    level_at (chartData intakes) k = Some (Num v)
    /\ 0 < v <= Rsum ((fun e => num_value (amount e)) <$> intakes).
Proof.
  intros Hne Hv Hk. change 1440%nat with (TOTAL_DURATION * 60)%nat in Hk.
  destruct (valid_series _ Hne Hv)
    as (first & rest & s & data & E & _ & _ & _ & Hall & _ & -> & _ & Hdata).
  unfold level_at. cbn [point_at]. rewrite (Hdata k Hk).
  exists (0 + Rsum (term (Num s) k <$> first :: rest)).
  split; [reflexivity |].
  assert (Hterms : Forall (fun e => 0 < term (Num s) k e
                                    /\ term (Num s) k e <= num_value (amount e))
                          (first :: rest)).
  { eapply Forall_impl; [exact Hall |].
    intros e [Hve Hse]. cbn beta.
    destruct (term_valid s e k Hve Hse Hk) as [_ H]. lra. }
  assert (Hpos : 0 < Rsum (term (Num s) k <$> first :: rest)).
  { apply Rsum_pos; [discriminate |].
    eapply Forall_impl; [exact Hterms |]. intros e [H _]. exact H. }
  assert (Hle : Rsum (term (Num s) k <$> first :: rest)
                <= Rsum ((fun e => num_value (amount e)) <$> first :: rest)).
  { apply Rsum_le_pointwise.
    eapply Forall_impl; [exact Hterms |]. intros e [_ H]. exact H. }
  rewrite (Rsum_perm ((fun e => num_value (amount e)) <$> first :: rest)
                     ((fun e => num_value (amount e)) <$> intakes)) in Hle.
  - lra.
  - apply fmap_Permutation. rewrite <- E. apply sort_perm.
Qed.

Lemma level_bounds_witness :
  exists v : R,
    level_at (chartData [ {| time := Num 14; amount := Num 100 |};
                          {| time := Num 6; amount := Num 50 |} ]) 700
    = Some (Num v)
    /\ 0 < v <= Rsum ((fun e => num_value (amount e))
                        <$> [ {| time := Num 14; amount := Num 100 |};
                              {| time := Num 6; amount := Num 50 |} ]).
Proof.
  apply (level_bounds [ {| time := Num 14; amount := Num 100 |};
                        {| time := Num 6; amount := Num 50 |} ] 700).
  - discriminate.
  - repeat (apply Forall_cons; split; [apply valid_event_intro; lra |]).
    apply Forall_nil_2.
  - lia.
Defined.

Section OwnMinute.

Lemma rem_day (x : R) :
  0 <= x < 48 ->
  (Num x %% Num 24)%js = Num (if Rlt_dec x 24 then x else x - 24).
Proof.
  intros Hx. destruct (Rlt_dec x 24).
  - apply rem_small. lra.
  - apply rem_wrap; lra.
Qed.

(** At its own step an intake counts in full. *)
Lemma own_step_term (s : R) (intake : Intake) :
  valid_event intake ->
  (exists t, time intake = Num t /\ 0 <= s <= t) ->
  (own_step (Num s) intake < TOTAL_DURATION * 60)%nat
  /\ term (Num s) (own_step (Num s) intake) intake
     = num_value (amount intake).
Proof.
  intros Hv Hs.
  assert (Hlt : (own_step (Num s) intake < TOTAL_DURATION * 60)%nat).
  { unfold own_step. apply Nat.mod_upper_bound. discriminate. }
  split; [exact Hlt |].
  destruct Hv as [(t & Et & Ht) (a & Ea & Ha)].
  destruct Hs as (t' & Et' & Hs). rewrite Et in Et'. injection Et' as <-.
  destruct (intakeMinute_valid s t intake Et) as [Eim Hz]; [lra | lra |].
  unfold term. revert Hlt. unfold own_step. rewrite Eim.
  cbn [to_index]. rewrite Int_part_IZR.
  set (z := Int_part ((t - s) * 60 + / 2)) in *.
  intros Hlt.
  rewrite timeSinceIntake_valid by assumption.
  rewrite (contribution_valid intake a _ Ea), Ea. cbn [num_value].
  assert (E0 : (if Rle_dec (IZR z)
                     (INR (Z.to_nat z mod (TOTAL_DURATION * 60)))
                then INR (Z.to_nat z mod (TOTAL_DURATION * 60)) - IZR z
                else INR (Z.to_nat z mod (TOTAL_DURATION * 60)) - IZR z + 1440)
               = 0).
  { destruct (Z.eq_dec z 1440%Z) as [Hz' | Hne].
    - rewrite Hz'.
      change (Z.to_nat 1440 mod (TOTAL_DURATION * 60))%nat with 0%nat.
      change (INR 0) with 0.
      destruct (Rle_dec 1440 0); lra.
    - rewrite Nat.mod_small
        by (change (TOTAL_DURATION * 60)%nat with (Z.to_nat 1440); lia).
      rewrite INR_IZR_INZ, Z2Nat.id by lia.
      destruct (Rle_dec (IZR z) (IZR z)); lra. }
  rewrite E0. replace (0 / 60 / 5) with 0 by lra.
  rewrite Rpower_half_0. lra.
Qed.

End OwnMinute.

(** X6.  At the step where an intake of a valid store sits in the
    window, the level is at least the amount of that intake: the dose
    shows in full at its own minute, on top of what is left of the
    others. *)
Theorem level_at_own_minute (intakes : list Intake) (intake : Intake)
    (s : number) :
  Forall valid_event intakes -> intake ∈ intakes ->
  startTime intakes = Return s ->
  (own_step s intake < 1440)%nat
  /\ exists v : R,
       level_at (chartData intakes) (own_step s intake) = Some (Num v)
       /\ num_value (amount intake) <= v.
Proof.
  intros Hv Hin Hstart.
  assert (Hne : intakes <> []) by (intros ->; inversion Hin).
  destruct (valid_series _ Hne Hv)
    as (first & rest & s0 & data & E & _ & _ & _ & Hall & Hst & -> & _ & Hdata).
  rewrite Hst in Hstart. injection Hstart as <-.
  assert (Hin' : intake ∈ first :: rest).
  { rewrite <- E, (sort_perm by_time intakes). exact Hin. }
  pose proof Hall as Hall'. rewrite Forall_forall in Hall'.
  destruct (Hall' intake Hin') as [Hvi Hsi].
  destruct (own_step_term s0 intake Hvi Hsi) as [Hlt Hterm].
  split; [exact Hlt |].
  unfold level_at. cbn [point_at]. rewrite (Hdata _ Hlt).
  exists (0 + Rsum (term (Num s0) (own_step (Num s0) intake) <$> first :: rest)).
  split; [reflexivity |].
  rewrite <- Hterm.
  pose proof (Rsum_ge_member (term (Num s0) (own_step (Num s0) intake))
                (first :: rest) intake) as Hge.
  assert (Hpos : Forall (fun y => 0 < term (Num s0) (own_step (Num s0) intake) y)
                        (first :: rest)).
  { eapply Forall_impl; [exact Hall |]. intros e [Hve Hse]. cbn beta.
    destruct (term_valid s0 e _ Hve Hse Hlt) as [_ H]. lra. }
  specialize (Hge Hpos Hin'). lra.
Qed.

Lemma level_at_own_minute_witness :
  (own_step (Num 6) {| time := Num 14; amount := Num 100 |} < 1440)%nat
  /\ exists v : R,
       level_at (chartData [ {| time := Num 14; amount := Num 100 |};
                             {| time := Num 6; amount := Num 50 |} ])
                (own_step (Num 6) {| time := Num 14; amount := Num 100 |})
       = Some (Num v)
       /\ num_value (amount {| time := Num 14; amount := Num 100 |}) <= v.
Proof.
  apply (level_at_own_minute
           [ {| time := Num 14; amount := Num 100 |};
             {| time := Num 6; amount := Num 50 |} ]
           {| time := Num 14; amount := Num 100 |} (Num 6)).
  - repeat (apply Forall_cons; split; [apply valid_event_intro; lra |]).
    apply Forall_nil_2.
  - left.
  - unfold startTime. cbv zeta. cbn [sort sort_insert]. unfold by_time.
    cbn [time sub lift2]. rewrite gt_num by lra. reflexivity.
Defined.

(** X7.  The series of a single valid intake decays strictly: a later
    step of the window always has a lower level than an earlier one. *)
Theorem single_intake_decreasing (t a : R) (j k : nat) :
  0 <= t < 24 -> 0 < a <= 1000 -> (j < k)%nat -> (k < 1440)%nat ->
  exists vj vk : R,
    level_at (chartData [ {| time := Num t; amount := Num a |} ]) j
    = Some (Num vj)
    /\ level_at (chartData [ {| time := Num t; amount := Num a |} ]) k
       = Some (Num vk)
    /\ vk < vj.
Proof.
  intros Ht Ha Hjk Hk. change 1440%nat with (TOTAL_DURATION * 60)%nat in Hk.
  assert (Hj : (j < TOTAL_DURATION * 60)%nat) by lia.
  unfold level_at. rewrite !single_intake_series by assumption.
  eexists _, _. split; [reflexivity |]. split; [reflexivity |].
  assert (Hlt : INR j < INR k) by (apply lt_INR; exact Hjk).
  replace (INR k / 60 / 5) with (INR j / 60 / 5 + (INR k - INR j) / 60 / 5)
    by lra.
  rewrite Rpower_plus.
  pose proof (Rpower_half_pos (INR j / 60 / 5)) as Hp.
  assert (Hd : Rpower 0.5 ((INR k - INR j) / 60 / 5) < 1)
    by (apply Rpower_half_lt_1; lra).
  set (P := Rpower 0.5 (INR j / 60 / 5)) in *.
  set (Q := Rpower 0.5 ((INR k - INR j) / 60 / 5)) in *.
  assert (HaP : 0 < a * P) by (apply Rmult_lt_0_compat; lra).
  assert (Hmul : a * P * Q < a * P * 1)
    by (apply Rmult_lt_compat_l; assumption).
  lra.
Qed.

Lemma single_intake_decreasing_witness :
  exists vj vk : R,
    level_at (chartData [ {| time := Num 6; amount := Num 100 |} ]) 10
    = Some (Num vj)
    /\ level_at (chartData [ {| time := Num 6; amount := Num 100 |} ]) 11
       = Some (Num vk)
    /\ vk < vj.
Proof.
  apply (single_intake_decreasing 6 100 10 11); (lra || lia).
Defined.

(** X8.  A store of one event whose time is NaN and whose amount passes
    the amount check is accepted, and its chart is flat: every point has
    the time NaN and the level 0, the guard of the inner loop being false
    at every minute. *)
Theorem cleared_time_flat_chart (a : number) (k : nat) :
  ((a <=? 0) || (a >? 1000))%js = false -> (k < 1440)%nat ->
  accepts [ {| time := NaN; amount := a |} ]
  /\ point_at (chartData [ {| time := NaN; amount := a |} ]) k
     = Some {| ptime := NaN; caffeine := Num 0 |}.
Proof.
  intros Ha Hk. change 1440%nat with (TOTAL_DURATION * 60)%nat in Hk.
  assert (Hacc : accepts [ {| time := NaN; amount := a |} ]).
  { unfold accepts. cbn [validateIntakes time amount]. rewrite Ha. reflexivity. }
  split; [exact Hacc |].
  unfold chartData. rewrite Hacc. cbn [snd negb]. cbv zeta.
  cbn [sort sort_insert].
  change ([ {| time := NaN; amount := a |} ] !! 0%nat)
    with (Some {| time := NaN; amount := a |}).
  cbn [point_at]. rewrite forEach_lookup, initial_lookup by exact Hk.
  reflexivity.
Qed.

Lemma cleared_time_flat_chart_witness :
  accepts [ {| time := NaN; amount := Num 100 |} ]
  /\ point_at (chartData [ {| time := NaN; amount := Num 100 |} ]) 480
     = Some {| ptime := NaN; caffeine := Num 0 |}.
Proof.
  apply (cleared_time_flat_chart (Num 100) 480).
  - js_compare.
  - lia.
Defined.

(** ** The axis *)

(** X9.  The [startTime] memo throws on the empty store and on no other.
    On a valid store it is the time of an event that no event precedes,
    a number in [[0, 24)], and it is the time of the first point of the
    series. *)
Theorem startTime_spec (intakes : list Intake) :
  (startTime intakes = Throw TypeError <-> intakes = [])
  /\ (intakes <> [] -> Forall valid_event intakes ->
      exists (first : Intake) (s : R),
        startTime intakes = Return (Num s)
        /\ earliest first intakes
        /\ time first = Num s
        /\ 0 <= s < 24
        /\ ptime <$> point_at (chartData intakes) 0 = Some (Num s)).
Proof.
  split; [split |].
  - intros Hthrow. destruct intakes as [| e rest]; [reflexivity |].
    destruct (sort_nonempty by_time (e :: rest)) as (f & r & E); [discriminate |].
    unfold startTime in Hthrow. cbv zeta in Hthrow. rewrite E in Hthrow.
    discriminate Hthrow.
  - intros ->. reflexivity.
  - intros Hne Hv.
    destruct (valid_series _ Hne Hv)
      as (first & rest & s & data & _ & Es & Hs & Hfirst & _ & Hst & -> & _ & Hdata).
    exists first, s. repeat split; try assumption; try apply Hfirst; try lra.
    cbn [point_at]. rewrite Hdata by (unfold TOTAL_DURATION; lia).
    cbn [fmap option_fmap option_map ptime]. f_equal.
    unfold of_nat. change (INR 0) with 0.
    rewrite div_num by lra. cbn [add lift2].
    rewrite rem_small by lra. f_equal. lra.
Qed.

Lemma startTime_spec_witness :
  exists (first : Intake) (s : R),
    startTime [ {| time := Num 14; amount := Num 100 |};
                {| time := Num 6; amount := Num 50 |} ] = Return (Num s)
    /\ earliest first [ {| time := Num 14; amount := Num 100 |};
                        {| time := Num 6; amount := Num 50 |} ]
    /\ time first = Num s
    /\ 0 <= s < 24
    /\ ptime <$> point_at (chartData [ {| time := Num 14; amount := Num 100 |};
                                       {| time := Num 6; amount := Num 50 |} ]) 0
       = Some (Num s).
Proof.
  apply (proj2 (startTime_spec [ {| time := Num 14; amount := Num 100 |};
                                 {| time := Num 6; amount := Num 50 |} ])).
  - discriminate.
  - repeat (apply Forall_cons; split; [apply valid_event_intro; lra |]).
    apply Forall_nil_2.
Defined.

(** X10.  On a valid store the six ticks of the axis are times of points
    of the series: the tick of rank [j] is the time of the point at step
    [240 * j], four hours after the previous one on the 24-hour clock. *)
Theorem ticks_are_points (intakes : list Intake) (s : number) (j : nat) :
  Forall valid_event intakes -> startTime intakes = Return s ->
  (j < 6)%nat ->
  ticks s !! j = ptime <$> point_at (chartData intakes) (240 * j).
Proof.
  intros Hv Hstart Hj.
  assert (Hne : intakes <> []).
  { intros ->. discriminate Hstart. }
  destruct (valid_series _ Hne Hv)
    as (first & rest & s0 & data & _ & _ & Hs & _ & _ & Hst & -> & _ & Hdata).
  rewrite Hst in Hstart. injection Hstart as <-.
  cbn [point_at].
  assert (Hstep : forall h : Z, (0 <= h <= 20)%Z ->
            ptime <$> data !! Z.to_nat (60 * h)
            = Some (Num (if Rlt_dec (s0 + IZR h) 24
                         then s0 + IZR h else s0 + IZR h - 24))).
  { intros h Hh.
    rewrite Hdata
      by (change (TOTAL_DURATION * 60)%nat with (Z.to_nat 1440); lia).
    cbn [fmap option_fmap option_map ptime]. f_equal.
    unfold of_nat. rewrite INR_IZR_INZ, Z2Nat.id by lia.
    rewrite div_num by lra. cbn [add lift2].
    assert (Hh' : 0 <= IZR h <= 20) by (split; apply IZR_le; lia).
    replace (IZR (60 * h) / 60) with (IZR h) by (rewrite mult_IZR; lra).
    apply rem_day. lra. }
  assert (Htick : forall h : Z, (0 <= h <= 20)%Z ->
            ((Num s0 + Num (IZR h)) %% Num 24)%js
            = Num (if Rlt_dec (s0 + IZR h) 24
                   then s0 + IZR h else s0 + IZR h - 24)).
  { intros h Hh. cbn [add lift2].
    assert (Hh' : 0 <= IZR h <= 20) by (split; apply IZR_le; lia).
    apply rem_day. lra. }
  destruct j as [| [| [| [| [| [| j]]]]]]; [| | | | | | lia].
  - change (240 * 0)%nat with (Z.to_nat (60 * 0)). rewrite Hstep by lia.
    cbn [ticks lookup list_lookup]. f_equal. f_equal.
    destruct (Rlt_dec (s0 + 0) 24); lra.
  - change (240 * 1)%nat with (Z.to_nat (60 * 4)). rewrite Hstep by lia.
    cbn [ticks lookup list_lookup]. f_equal. apply (Htick 4%Z). lia.
  - change (240 * 2)%nat with (Z.to_nat (60 * 8)). rewrite Hstep by lia.
    cbn [ticks lookup list_lookup]. f_equal. apply (Htick 8%Z). lia.
  - change (240 * 3)%nat with (Z.to_nat (60 * 12)). rewrite Hstep by lia.
    cbn [ticks lookup list_lookup]. f_equal. apply (Htick 12%Z). lia.
  - change (240 * 4)%nat with (Z.to_nat (60 * 16)). rewrite Hstep by lia.
    cbn [ticks lookup list_lookup]. f_equal. apply (Htick 16%Z). lia.
  - change (240 * 5)%nat with (Z.to_nat (60 * 20)). rewrite Hstep by lia.
    cbn [ticks lookup list_lookup]. f_equal. apply (Htick 20%Z). lia.
Qed.

Lemma ticks_are_points_witness :
  ticks (Num 6) !! 5%nat
  = ptime <$> point_at (chartData [ {| time := Num 14; amount := Num 100 |};
                                    {| time := Num 6; amount := Num 50 |} ])
                       (240 * 5).
Proof.
  apply (ticks_are_points [ {| time := Num 14; amount := Num 100 |};
                            {| time := Num 6; amount := Num 50 |} ]
                          (Num 6) 5).
  - repeat (apply Forall_cons; split; [apply valid_event_intro; lra |]).
    apply Forall_nil_2.
  - unfold startTime. cbv zeta. cbn [sort sort_insert]. unfold by_time.
    cbn [time sub lift2]. rewrite gt_num by lra. reflexivity.
  - lia.
Defined.

(** ** Further properties of the intake store *)

(** X12.  [updateIntake] throws exactly when [index] is not a position
    of the store.  Otherwise the new store has the same length, the event
    at [index] has the named field set to the value and its other field
    unchanged, and every other event is unchanged. *)
Theorem updateIntake_spec (index : nat) (field : Field) (value : number)
    (intakes : list Intake) :
  (updateIntake index field value intakes = Throw TypeError
   <-> (length intakes <= index)%nat)
  /\ (forall e : Intake, intakes !! index = Some e ->
      exists (store : list Intake) (e' : Intake),
        updateIntake index field value intakes = Return store
        /\ length store = length intakes
        /\ store !! index = Some e'
        /\ match field with
           | FTime => time e' = value /\ amount e' = amount e
           | FAmount => amount e' = value /\ time e' = time e
           end
        /\ forall j : nat, j <> index -> store !! j = intakes !! j).
Proof.
  unfold updateIntake. split; [split |].
  - destruct (intakes !! index) eqn:E; [discriminate |].
    intros _. apply lookup_ge_None, E.
  - intros Hlen. rewrite (lookup_ge_None_2 _ _ Hlen). reflexivity.
  - intros e E. rewrite E.
    exists (alter (set_field field value) index intakes), (set_field field value e).
    split; [reflexivity |]. split; [apply length_alter |].
    split; [rewrite list_lookup_alter_eq, E; reflexivity |].
    split; [destruct field; split; reflexivity |].
    intros j Hj. apply list_lookup_alter_ne. congruence.
Qed.

Lemma updateIntake_spec_witness :
  exists (store : list Intake) (e' : Intake),
    updateIntake 1 FAmount (Num 75)
      [ {| time := Num 6; amount := Num 100 |};
        {| time := Num 8; amount := Num 100 |} ] = Return store
    /\ length store = length [ {| time := Num 6; amount := Num 100 |};
                               {| time := Num 8; amount := Num 100 |} ]
    /\ store !! 1%nat = Some e'
    /\ (amount e' = Num 75
        /\ time e' = time {| time := Num 8; amount := Num 100 |})
    /\ forall j : nat, j <> 1%nat ->
         store !! j = [ {| time := Num 6; amount := Num 100 |};
                        {| time := Num 8; amount := Num 100 |} ] !! j.
Proof.
  apply (proj2 (updateIntake_spec 1 FAmount (Num 75)
                  [ {| time := Num 6; amount := Num 100 |};
                    {| time := Num 8; amount := Num 100 |} ])
               {| time := Num 8; amount := Num 100 |}).
  reflexivity.
Defined.

(** X13.  [removeIntake] at the last position undoes [addIntake]: the
    store grows by one event, and removing the event at the old length
    gives the old store back. *)
Theorem add_then_remove_last (intakes store : list Intake) :
  addIntake intakes = Return store ->
  length store = S (length intakes)
  /\ removeIntake (Z.of_nat (length intakes)) store = intakes.
Proof.
  intros Hadd.
  destruct (last intakes) as [lastIntake |] eqn:E.
  - rewrite (addIntake_last _ _ E) in Hadd. injection Hadd as <-.
    split; [rewrite length_app; cbn [length]; lia |].
    unfold removeIntake. rewrite filter_index_remove.
    rewrite decide_True by (rewrite length_app; cbn [length]; lia).
    rewrite Z.sub_0_r, Nat2Z.id. unfold without.
    rewrite take_app_length, drop_app_ge by lia.
    replace (S (length intakes) - length intakes)%nat with 1%nat by lia.
    cbn [drop]. apply app_nil_r.
  - unfold addIntake in Hadd. rewrite E in Hadd. discriminate Hadd.
Qed.

Lemma add_then_remove_last_witness :
  length [ {| time := Num 6; amount := Num 100 |};
           {| time := Num 8; amount := Num 100 |} ]
  = S (length [ {| time := Num 6; amount := Num 100 |} ])
  /\ removeIntake (Z.of_nat (length [ {| time := Num 6; amount := Num 100 |} ]))
       [ {| time := Num 6; amount := Num 100 |};
         {| time := Num 8; amount := Num 100 |} ]
     = [ {| time := Num 6; amount := Num 100 |} ].
Proof.
  apply (add_then_remove_last [ {| time := Num 6; amount := Num 100 |} ]).
  rewrite (addIntake_last [ {| time := Num 6; amount := Num 100 |} ]
             {| time := Num 6; amount := Num 100 |} eq_refl).
  cbn [time add lift2 app]. rewrite rem_small by lra.
  replace (6 + 2) with 8 by lra. reflexivity.
Defined.

(** X14.  [addIntake] keeps a valid store valid: the new event has its
    time in [[0, 24)] and the amount 100, so the store it returns passes
    validation. *)
Theorem addIntake_keeps_valid (intakes : list Intake) :
  intakes <> [] -> Forall valid_event intakes ->
  exists store : list Intake,
    addIntake intakes = Return store
    /\ Forall valid_event store
    /\ accepts store.
Proof.
  intros Hne Hv.
  destruct (last_nonempty intakes Hne) as [lastIntake E].
  rewrite (addIntake_last _ _ E).
  assert (Hl : valid_event lastIntake).
  { rewrite Forall_forall in Hv. apply Hv.
    apply last_Some in E as [l' ->]. apply elem_of_app. right. left. }
  destruct Hl as [(t & Et & Ht) _].
  assert (Hstore : Forall valid_event
            (intakes ++ [ {| time := ((time lastIntake + 2) %% 24)%js;
                             amount := Num 100 |} ])).
  { apply Forall_app. split; [exact Hv |].
    apply Forall_cons; split; [| apply Forall_nil_2].
    rewrite Et. cbn [add lift2]. rewrite rem_day by lra.
    apply valid_event_intro; [| lra].
    destruct (Rlt_dec (t + 2) 24); lra. }
  eexists. split; [reflexivity |]. split; [exact Hstore |].
  apply validate_valid, Hstore.
Qed.

Lemma addIntake_keeps_valid_witness :
  exists store : list Intake,
    addIntake [ {| time := Num 23; amount := Num 100 |} ] = Return store
    /\ Forall valid_event store
    /\ accepts store.
Proof.
  apply (addIntake_keeps_valid [ {| time := Num 23; amount := Num 100 |} ]).
  - discriminate.
  - apply Forall_cons; split; [apply valid_event_intro; lra |].
    apply Forall_nil_2.
Defined.

(** X15.  The time of the event that [addIntake] appends, for a last
    time [t] in [[0, 24)]: it is [t + 2] when [t < 22] and [t - 22]
    otherwise.  So the new time is after the last one exactly when
    [t < 22]; from 22:00 on it wraps to the small hours, the test on
    [newTime <= lastIntake.time] changing nothing. *)
Theorem addIntake_new_time (intakes : list Intake) (lastIntake : Intake)
    (t : R) :
  last intakes = Some lastIntake -> time lastIntake = Num t ->
  0 <= t < 24 ->
  exists (store : list Intake) (t' : R),
    addIntake intakes = Return store
    /\ last store = Some {| time := Num t'; amount := Num 100 |}
    /\ t' = (if Rlt_dec t 22 then t + 2 else t - 22)
    /\ (t < t' <-> t < 22).
Proof.
  intros E Et Ht. rewrite (addIntake_last _ _ E), Et.
  cbn [add lift2]. rewrite rem_day by lra.
  eexists _, _. split; [reflexivity |].
  split; [apply last_snoc |].
  destruct (Rlt_dec (t + 2) 24), (Rlt_dec t 22); lra.
Qed.

Lemma addIntake_new_time_witness :
  exists (store : list Intake) (t' : R),
    addIntake [ {| time := Num 23; amount := Num 100 |} ] = Return store
    /\ last store = Some {| time := Num t'; amount := Num 100 |}
    /\ t' = (if Rlt_dec 23 22 then 23 + 2 else 23 - 22)
    /\ (23 < t' <-> 23 < 22).
Proof.
  apply (addIntake_new_time [ {| time := Num 23; amount := Num 100 |} ]
                            {| time := Num 23; amount := Num 100 |} 23).
  - reflexivity.
  - reflexivity.
  - lra.
Defined.

(** X16.  Removing at any index other than 0, the only removals the
    latest version of the table offers, keeps the first event in place:
    a non-empty store stays non-empty. *)
Theorem removeIntake_keeps_first (index : Z) (intakes : list Intake) :
  index <> 0%Z ->
  head (removeIntake index intakes) = head intakes
  /\ (intakes <> [] -> removeIntake index intakes <> []).
Proof.
  intros Hi. destruct intakes as [| e rest].
  { split; [reflexivity |]. intros H. exfalso. apply H. reflexivity. }
  unfold removeIntake. cbn [filter_index].
  destruct (Z.eqb_spec (Z.of_nat 0) index) as [E | _];
    [exfalso; apply Hi; symmetry; exact E |].
  cbn [negb head]. split; [reflexivity | discriminate].
Qed.

Lemma removeIntake_keeps_first_witness :
  head (removeIntake 1 [ {| time := Num 6; amount := Num 100 |};
                         {| time := Num 8; amount := Num 100 |} ])
  = head [ {| time := Num 6; amount := Num 100 |};
           {| time := Num 8; amount := Num 100 |} ]
  /\ ([ {| time := Num 6; amount := Num 100 |};
        {| time := Num 8; amount := Num 100 |} ] <> [] ->
      removeIntake 1 [ {| time := Num 6; amount := Num 100 |};
                       {| time := Num 8; amount := Num 100 |} ] <> []).
Proof.
  apply (removeIntake_keeps_first 1
           [ {| time := Num 6; amount := Num 100 |};
             {| time := Num 8; amount := Num 100 |} ]).
  lia.
Defined.

(** X17.  The sorted copy of a valid store holds the same events and is
    in order of time: every event is not later than all that follow it. *)
Theorem sort_by_time_sorted (intakes : list Intake) :
  Forall valid_event intakes ->
  sort by_time intakes ≡ₚ intakes
  /\ StronglySorted time_le (sort by_time intakes).
Proof.
  intros Hv. split; [apply sort_perm |].
  induction Hv as [| x l Hx Hl IH]; cbn [sort]; [constructor |].
  assert (Hs : Forall valid_event (sort by_time l))
    by (rewrite (sort_perm by_time l); exact Hl).
  set (s := sort by_time l) in *. clearbody s. clear Hl l.
  induction IH as [| y rest Hrest IHrest Hy]; cbn [sort_insert].
  - repeat constructor.
  - apply Forall_cons in Hs as [Hvy Hvrest].
    destruct (by_time_total x y Hx Hvy) as [[E Hle] | [E Hle]]; rewrite E.
    + apply StronglySorted_cons. split; [| apply IHrest, Hvrest].
      rewrite (sort_insert_perm by_time x rest).
      apply Forall_cons; split; assumption.
    + apply StronglySorted_cons. split.
      * apply Forall_cons; split; [exact Hle |].
        eapply Forall_impl; [exact Hy |].
        intros z Hz. apply (time_le_trans _ y); assumption.
      * apply StronglySorted_cons. split; assumption.
Qed.

Lemma sort_by_time_sorted_witness :
  sort by_time [ {| time := Num 14; amount := Num 100 |};
                 {| time := Num 6; amount := Num 50 |} ]
  ≡ₚ [ {| time := Num 14; amount := Num 100 |};
       {| time := Num 6; amount := Num 50 |} ]
  /\ StronglySorted time_le
       (sort by_time [ {| time := Num 14; amount := Num 100 |};
                       {| time := Num 6; amount := Num 50 |} ]).
Proof.
  apply (sort_by_time_sorted [ {| time := Num 14; amount := Num 100 |};
                               {| time := Num 6; amount := Num 50 |} ]).
  repeat (apply Forall_cons; split; [apply valid_event_intro; lra |]).
  apply Forall_nil_2.
Defined.

(** ** The time field *)

Section TimeField.

Lemma digit_not_colon (c : ascii) (d : N) :
  digit_of c = Some d -> Ascii.eqb c ":" = false.
Proof.
  intros Hd. destruct (Ascii.eqb_spec c ":") as [-> | _]; [| reflexivity].
  vm_compute in Hd. discriminate Hd.
Qed.

(** A string of digits holds no colon: [split] leaves it whole. *)
Lemma split_digits (s : string) (acc n : N) :
  digits_from acc s = Some n -> split ":" s = [s].
Proof.
  revert acc. induction s as [| c s IH]; intros acc H; [reflexivity |].
  cbn [digits_from] in H. destruct (digit_of c) as [d |] eqn:Ed; [| discriminate].
  cbn [split]. rewrite (digit_not_colon c d Ed), (IH _ H). reflexivity.
Qed.

(** Digits, a colon, then the rest: [split] cuts at that colon first. *)
Lemma split_digits_colon (a b : string) (acc n : N) :
  digits_from acc a = Some n ->
  split ":" (a ++ String ":" b) = a :: split ":" b.
Proof.
  revert acc. induction a as [| c a IH]; intros acc H; [reflexivity |].
  cbn [digits_from] in H. destruct (digit_of c) as [d |] eqn:Ed; [| discriminate].
  cbn [String.append split].
  rewrite (digit_not_colon c d Ed), (IH _ H). reflexivity.
Qed.

(** Two digits for every number below sixty, read back as that number. *)
Lemma two_digits (n : nat) :
  (n < 60)%nat ->
  String.length (padStart 2 "0" (string_of_Z (Z.of_nat n))) = 2%nat
  /\ digits_from 0 (padStart 2 "0" (string_of_Z (Z.of_nat n)))
     = Some (N.of_nat n)
  /\ digits_value (padStart 2 "0" (string_of_Z (Z.of_nat n)))
     = Some (N.of_nat n).
Proof.
  intros Hn.
  do 60 (destruct n as [| n]; [vm_compute; repeat split; reflexivity |]).
  lia.
Qed.

Lemma time_value_split (h m : nat) :
  (h < 60)%nat -> (m < 60)%nat ->
  split ":" (time_value h m)
  = [ padStart 2 "0" (string_of_Z (Z.of_nat h));
      padStart 2 "0" (string_of_Z (Z.of_nat m)) ].
Proof.
  intros Hh Hm.
  destruct (two_digits h Hh) as (_ & Eh & _).
  destruct (two_digits m Hm) as (_ & Em & _).
  unfold time_value.
  change (":" ++ padStart 2 "0" (string_of_Z (Z.of_nat m)))%string
    with (String ":" (padStart 2 "0" (string_of_Z (Z.of_nat m)))).
  rewrite (split_digits_colon _ _ _ _ Eh), (split_digits _ _ _ Em).
  reflexivity.
Qed.

Lemma formatXAxis_num (t : R) :
  formatXAxis (Num t)
  = (padStart 2 "0" (string_of_Z (Int_part t)) ++ ":00")%string.
Proof.
  unfold formatXAxis. cbv zeta. cbn [Math_floor toString].
  rewrite Int_part_IZR. reflexivity.
Qed.

Lemma formatXAxis_hour (h : nat) (t : R) :
  INR h <= t < INR h + 1 -> formatXAxis (Num t) = time_value h 0.
Proof.
  intros Ht. rewrite formatXAxis_num.
  replace (Int_part t) with (Z.of_nat h); [reflexivity |].
  apply Int_part_spec. rewrite <- INR_IZR_INZ. lra.
Qed.

(** What the handler computes from a well-formed value. *)
Lemma time_of_value (Number : string -> number) (h m : nat) :
  reads_digits Number -> (h < 60)%nat -> (m < 60)%nat ->
  (Number_of Number (split ":" (time_value h m) !! 0%nat)
   + Number_of Number (split ":" (time_value h m) !! 1%nat) / 60)%js
  = Num (INR h + INR m / 60).
Proof.
  intros [_ Hdigits] Hh Hm. rewrite time_value_split by assumption.
  cbn [lookup list_lookup Number_of].
  destruct (two_digits h Hh) as (_ & _ & Eh).
  destruct (two_digits m Hm) as (_ & _ & Em).
  rewrite (Hdigits _ _ Eh), (Hdigits _ _ Em).
  rewrite !nat_N_Z, <- !INR_IZR_INZ.
  rewrite div_num by lra. reflexivity.
Qed.

(** A NaN in the time of an event with an in-range amount is skipped by
    the scan like a valid event. *)
Lemma validate_skip_lenient (intakes : list Intake) :
  Forall (fun e =>
            valid_event e
            \/ (time e = NaN /\ in_amount_range (amount e))) intakes ->
  accepts intakes.
Proof.
  unfold accepts.
  induction 1 as [| e rest [Hv | [Et (a & Ea & Ha)]] _ IH]; [reflexivity | |].
  - rewrite validate_skip by exact Hv. exact IH.
  - cbn [validateIntakes]. rewrite Et, Ea.
    rewrite amount_check_passes by exact Ha. exact IH.
Qed.

End TimeField.

(** X18.  For a time in [[0, 24)], [formatXAxis] gives five characters:
    the whole hour [h] on two digits and the minutes [00], the value of a
    time field set to [h:00]; the minutes of the time are dropped. *)
Theorem formatXAxis_whole_hour (t : R) :
  0 <= t < 24 ->
  exists h : nat,
    (h < 24)%nat
    /\ INR h <= t < INR h + 1
    /\ formatXAxis (Num t) = time_value h 0
    /\ String.length (formatXAxis (Num t)) = 5%nat.
Proof.
  intros Ht.
  assert (Hz : (0 <= Int_part t < 24)%Z) by (apply Int_part_bounds; lra).
  destruct (base_Int_part t) as [Hlo Hhi].
  exists (Z.to_nat (Int_part t)).
  assert (Hh : INR (Z.to_nat (Int_part t)) = IZR (Int_part t)).
  { rewrite INR_IZR_INZ, Z2Nat.id by lia. reflexivity. }
  assert (Hb : INR (Z.to_nat (Int_part t)) <= t
               < INR (Z.to_nat (Int_part t)) + 1) by (rewrite Hh; lra).
  split; [lia |]. split; [exact Hb |].
  rewrite (formatXAxis_hour _ t Hb). split; [reflexivity |].
  assert (Hn : (Z.to_nat (Int_part t) < 24)%nat) by lia.
  revert Hn. generalize (Z.to_nat (Int_part t)) as n. intros n Hn.
  do 24 (destruct n as [| n]; [vm_compute; reflexivity |]).
  lia.
Qed.

Lemma formatXAxis_whole_hour_witness :
  exists h : nat,
    (h < 24)%nat
    /\ INR h <= 6.5 < INR h + 1
    /\ formatXAxis (Num 6.5) = time_value h 0
    /\ String.length (formatXAxis (Num 6.5)) = 5%nat.
Proof. apply (formatXAxis_whole_hour 6.5). lra. Defined.

(** X19.  Given a well-formed value [HH:MM] (hours below 24, minutes
    below 60) and a [Number] that reads digit strings, the handler of the
    time field stores [h + m / 60] as the time of the event at [index],
    keeps its amount, and that time is in [[0, 24)]. *)
Theorem onTimeChange_stores (Number : string -> number) (index h m : nat)
    (intakes : list Intake) (e : Intake) :
  reads_digits Number -> (h < 24)%nat -> (m < 60)%nat ->
  intakes !! index = Some e ->
  exists store : list Intake,
    onTimeChange Number index (time_value h m) intakes = Return store
    /\ store !! index
       = Some {| time := Num (INR h + INR m / 60); amount := amount e |}
    /\ in_time_range (Num (INR h + INR m / 60)).
Proof.
  intros HN Hh Hm E. unfold onTimeChange. cbv zeta.
  rewrite (time_of_value Number h m HN) by lia.
  unfold updateIntake. rewrite E.
  eexists. split; [reflexivity |].
  split; [rewrite list_lookup_alter_eq, E; reflexivity |].
  exists (INR h + INR m / 60). split; [reflexivity |].
  assert (Hh' : 0 <= INR h <= 23).
  { split; [apply pos_INR |].
    replace 23 with (INR 23) by (rewrite INR_IZR_INZ; reflexivity).
    apply le_INR. lia. }
  assert (Hm' : 0 <= INR m < 60).
  { split; [apply pos_INR |].
    replace 60 with (INR 60) by (rewrite INR_IZR_INZ; reflexivity).
    apply lt_INR. exact Hm. }
  lra.
Qed.

Lemma onTimeChange_stores_witness :
  exists store : list Intake,
    onTimeChange Number_digits 0 (time_value 6 30)
      [ {| time := Num 6; amount := Num 100 |} ] = Return store
    /\ store !! 0%nat
       = Some {| time := Num (INR 6 + INR 30 / 60);
                 amount := amount {| time := Num 6; amount := Num 100 |} |}
    /\ in_time_range (Num (INR 6 + INR 30 / 60)).
Proof.
  apply (onTimeChange_stores Number_digits 0 6 30
           [ {| time := Num 6; amount := Num 100 |} ]
           {| time := Num 6; amount := Num 100 |}).
  - split; [reflexivity |].
    intros s n Hs. unfold Number_digits.
    destruct s; [discriminate Hs |]. rewrite Hs. reflexivity.
  - lia.
  - lia.
  - reflexivity.
Defined.

(** X20.  When the time field is cleared its value is the empty string:
    there is no minutes part, the handler stores NaN as the time of the
    event, whatever [Number] is, and a store that was valid is still
    accepted by validation. *)
Theorem onTimeChange_cleared (Number : string -> number) (index : nat)
    (intakes : list Intake) (e : Intake) :
  intakes !! index = Some e ->
  exists store : list Intake,
    onTimeChange Number index EmptyString intakes = Return store
    /\ store !! index = Some {| time := NaN; amount := amount e |}
    /\ (Forall valid_event intakes -> accepts store).
Proof.
  intros E. unfold onTimeChange. cbv zeta.
  cbn [split lookup list_lookup Number_of].
  assert (Hnan : (Number EmptyString + NaN / 60)%js = NaN).
  { destruct (Number EmptyString); reflexivity. }
  rewrite Hnan. unfold updateIntake. rewrite E.
  eexists. split; [reflexivity |].
  split; [rewrite list_lookup_alter_eq, E; reflexivity |].
  intros Hv. apply validate_skip_lenient.
  apply Forall_alter.
  - eapply Forall_impl; [exact Hv |]. intros x Hx. left. exact Hx.
  - intros x _ [[_ Ha] | [_ Ha]]; right; split; (reflexivity || exact Ha).
Qed.

Lemma onTimeChange_cleared_witness :
  exists store : list Intake,
    onTimeChange Number_digits 0 EmptyString
      [ {| time := Num 6; amount := Num 100 |} ] = Return store
    /\ store !! 0%nat
       = Some {| time := NaN;
                 amount := amount {| time := Num 6; amount := Num 100 |} |}
    /\ (Forall valid_event [ {| time := Num 6; amount := Num 100 |} ] ->
        accepts store).
Proof.
  apply (onTimeChange_cleared Number_digits 0
           [ {| time := Num 6; amount := Num 100 |} ]
           {| time := Num 6; amount := Num 100 |}).
  reflexivity.
Defined.

(** X21.  After a well-formed value [HH:MM] has gone through the
    handler, the field shows [HH:00]: [formatXAxis] of the stored time is
    the value of a time field set to the same hour and no minutes. *)
Theorem time_field_shows_hour (Number : string -> number) (index h m : nat)
    (intakes : list Intake) (e : Intake) :
  reads_digits Number -> (h < 24)%nat -> (m < 60)%nat ->
  intakes !! index = Some e ->
  exists (store : list Intake) (e' : Intake),
    onTimeChange Number index (time_value h m) intakes = Return store
    /\ store !! index = Some e'
    /\ formatXAxis (time e') = time_value h 0.
Proof.
  intros HN Hh Hm E. unfold onTimeChange. cbv zeta.
  rewrite (time_of_value Number h m HN) by lia.
  unfold updateIntake. rewrite E.
  eexists _, _. split; [reflexivity |].
  split; [rewrite list_lookup_alter_eq, E; reflexivity |].
  cbn [set_field time]. apply formatXAxis_hour.
  assert (Hm' : 0 <= INR m < 60).
  { split; [apply pos_INR |].
    replace 60 with (INR 60) by (rewrite INR_IZR_INZ; reflexivity).
    apply lt_INR. exact Hm. }
  lra.
Qed.

Lemma time_field_shows_hour_witness :
  exists (store : list Intake) (e' : Intake),
    onTimeChange Number_digits 0 (time_value 6 30)
      [ {| time := Num 6; amount := Num 100 |} ] = Return store
    /\ store !! 0%nat = Some e'
    /\ formatXAxis (time e') = time_value 6 0.
Proof.
  apply (time_field_shows_hour Number_digits 0 6 30
           [ {| time := Num 6; amount := Num 100 |} ]
           {| time := Num 6; amount := Num 100 |}).
  - split; [reflexivity |].
    intros s n Hs. unfold Number_digits.
    destruct s; [discriminate Hs |]. rewrite Hs. reflexivity.
  - lia.
  - lia.
  - reflexivity.
Defined.

(** X22.  Feeding the handler what the field shows loses the minutes:
    for a time [t] in [[0, 24)], the handler applied to [formatXAxis t]
    stores the whole hour below [t]. *)
Theorem time_field_round_trip (Number : string -> number) (index : nat)
    (t : R) (intakes : list Intake) (e : Intake) :
  reads_digits Number -> 0 <= t < 24 -> intakes !! index = Some e ->
  exists store : list Intake,
    onTimeChange Number index (formatXAxis (Num t)) intakes = Return store
    /\ store !! index
       = Some {| time := Num (IZR (Int_part t)); amount := amount e |}.
Proof.
  intros HN Ht E.
  assert (Hz : (0 <= Int_part t < 24)%Z) by (apply Int_part_bounds; lra).
  destruct (base_Int_part t) as [Hlo Hhi].
  assert (Hh : INR (Z.to_nat (Int_part t)) = IZR (Int_part t)).
  { rewrite INR_IZR_INZ, Z2Nat.id by lia. reflexivity. }
  rewrite (formatXAxis_hour (Z.to_nat (Int_part t)) t) by (rewrite Hh; lra).
  unfold onTimeChange. cbv zeta.
  rewrite (time_of_value Number _ 0 HN) by lia.
  unfold updateIntake. rewrite E.
  eexists. split; [reflexivity |].
  rewrite list_lookup_alter_eq, E. cbn [fmap option_fmap option_map set_field].
  do 3 f_equal. rewrite Hh. change (INR 0) with 0. lra.
Qed.

Lemma time_field_round_trip_witness :
  exists store : list Intake,
    onTimeChange Number_digits 0 (formatXAxis (Num 6.5))
      [ {| time := Num 6.5; amount := Num 100 |} ] = Return store
    /\ store !! 0%nat
       = Some {| time := Num (IZR (Int_part 6.5));
                 amount := amount {| time := Num 6.5; amount := Num 100 |} |}.
Proof.
  apply (time_field_round_trip Number_digits 0 6.5
           [ {| time := Num 6.5; amount := Num 100 |} ]
           {| time := Num 6.5; amount := Num 100 |}).
  - split; [reflexivity |].
    intros s n Hs. unfold Number_digits.
    destruct s; [discriminate Hs |]. rewrite Hs. reflexivity.
  - lra.
  - reflexivity.
Defined.
